(** * Impurity and information gain (InfoGain_Computation.ipynb)

    A shallow embedding of the two functions of the notebook,
    [compute_impurity] and [comp_feature_information_gain], of the loop that
    calls the second for every descriptive column, and of the parts of
    pandas / NumPy they call ([Series.value_counts], [Series.unique],
    boolean-mask row selection, [DataFrame.drop], [np.sum], [np.log2],
    [np.square], [round]).

    Numbers: Python [int] is [Z]; Python / NumPy [float] is idealised as a
    real number ([R]), so [np.log2] is the real base-2 logarithm and
    [round(x, 3)] is round-half-to-even of the exact value at the third
    decimal.  Binary64 representation error is outside this model, and so is
    the sign of zero ([-0.0] and [0.0] are the same real).

    One consequence is kept in view throughout: where the exact value lies
    half-way between two 3-decimal numbers (3/80 = 0.0375, a Gini index of
    0.3025), the binary64 operand of the code lies a little to one side and
    the code rounds to that side, which need not be the even neighbour.
    The general statements about rounded values therefore say [nearest3]:
    the value is a 3-decimal number nearest to the exact one, either
    neighbour at such a tie.  Statements with concrete decimals are about
    data without such a tie.

    Effects: [print] appends a line to an output log, exceptions abort the
    call; both are threaded by the small monad [M]. *)

From Stdlib Require Import Reals Lra Lia ZArith List String Bool Permutation.
Import ListNotations.

Open Scope R_scope.

(** ** Data *)

(** The value of a cell: the CSV reader yields booleans ([stream]) and
    strings (every other column). *)
Inductive value : Type :=
| VBool (b : bool)
| VStr (s : string).

Definition value_eqb (a b : value) : bool :=
  match a, b with
  | VBool x, VBool y => Bool.eqb x y
  | VStr x, VStr y => String.eqb x y
  | _, _ => false
  end.

(** A pandas [Series] of labels (the index is positional and plays no role). *)
Definition Series : Type := list value.

(** A pandas [DataFrame]: column names and the rows, one cell per column. *)
Record DataFrame : Type := mkDataFrame
  { columns : list string;
    rows : list (list value) }.

(** Every row has one cell per column. *)
Definition wf_frame (df : DataFrame) : Prop :=
  Forall (fun r => List.length r = List.length (columns df)) (rows df).

(** Python exceptions that the two functions can meet. *)
Inductive exn : Type :=
| ValueError (msg : string)
| KeyError (key : string)
| ZeroDivisionError.

Inductive outcome (A : Type) : Type :=
| Returns (a : A)
| Raises (e : exn).
Arguments Returns {A} a.
Arguments Raises {A} e.

Definition obind {A B} (o : outcome A) (k : A -> outcome B) : outcome B :=
  match o with
  | Returns a => k a
  | Raises e => Raises e
  end.

(** What [print] can be given here. *)
Inductive pyval : Type :=
| PStr (s : string)
| PFloat (x : R)
| PList (l : list R).

(** One [print] call: its arguments in order. *)
Definition line : Type := list pyval.

(** Computations that print and may raise: the log so far goes in, the
    outcome and the extended log come out (what was printed before an
    exception stays printed). *)
Definition M (A : Type) : Type := list line -> outcome A * list line.

Definition ret {A} (a : A) : M A := fun out => (Returns a, out).

Definition bind {A B} (m : M A) (k : A -> M B) : M B :=
  fun out =>
    match m out with
    | (Returns a, out') => k a out'
    | (Raises e, out') => (Raises e, out')
    end.

Definition lift {A} (o : outcome A) : M A := fun out => (o, out).

Definition print (l : line) : M unit := fun out => (Returns tt, out ++ [l]).

Declare Scope py_scope.
Delimit Scope py_scope with py.
Notation "x <- m ;; k" := (bind m (fun x => k))
  (at level 61, m at next level, right associativity) : py_scope.
Notation "m ;; k" := (bind m (fun _ => k))
  (at level 61, right associativity) : py_scope.

(** The loop [for x in xs: body], the loop-carried variables being [s]. *)
Fixpoint for_each {A S} (xs : list A) (body : A -> S -> M S) (s : S) : M S :=
  match xs with
  | [] => ret s
  | x :: xs' => bind (body x s) (for_each xs' body)
  end.

(** ** pandas *)

(** [len(s)] *)
Definition len {A} (l : list A) : Z := Z.of_nat (List.length l).

Definition differs (v : value) (w : value) : bool := negb (value_eqb v w).

(** [Series.unique()]: the distinct values, in order of first appearance. *)
Fixpoint unique (s : Series) : Series :=
  match s with
  | [] => []
  | v :: s' => v :: filter (differs v) (unique s')
  end.

(** Number of cells of [s] equal to [v]. *)
Fixpoint count (v : value) (s : Series) : Z :=
  match s with
  | [] => 0%Z
  | w :: s' => ((if value_eqb v w then 1 else 0) + count v s')%Z
  end.

(** The hash-table pass of [value_counts]: each distinct value with its
    number of occurrences, in order of first appearance. *)
Fixpoint tally (s : Series) : list (value * Z) :=
  match s with
  | [] => []
  | v :: s' =>
      (v, (1 + count v s')%Z) :: filter (fun kc => differs v (fst kc)) (tally s')
  end.

(** Stable sort by decreasing count ([sort_values(ascending=False)]): an
    entry goes in front of the first entry that does not have a larger
    count. *)
Fixpoint insert_desc (e : value * Z) (l : list (value * Z)) : list (value * Z) :=
  match l with
  | [] => [e]
  | h :: t => if (snd h <=? snd e)%Z then e :: h :: t else h :: insert_desc e t
  end.

Definition sort_desc (l : list (value * Z)) : list (value * Z) :=
  fold_right insert_desc [] l.

(** [Series.value_counts()] *)
Definition value_counts (s : Series) : list (value * Z) := sort_desc (tally s).

Definition zsum (l : list Z) : Z := fold_right Z.add 0%Z l.

(** [Series.value_counts(normalize=True)]: the counts divided by their sum. *)
Definition value_counts_normalize (s : Series) : list (value * R) :=
  let counts := value_counts s in
  let total := zsum (map snd counts) in
  map (fun kc => (fst kc, IZR (snd kc) / IZR total)) counts.

Fixpoint index_of (c : string) (cols : list string) : option nat :=
  match cols with
  | [] => None
  | c' :: cols' =>
      if String.eqb c c' then Some O
      else option_map S (index_of c cols')
  end.

(** The cell of a row at a column position (a well-formed frame never
    reaches the default). *)
Definition cell (i : nat) (r : list value) : value := nth i r (VStr "").

(** [df[c]]: the column named [c], or [KeyError] (column names are taken to
    be distinct). *)
Definition getitem (df : DataFrame) (c : string) : outcome Series :=
  match index_of c (columns df) with
  | Some i => Returns (map (cell i) (rows df))
  | None => Raises (KeyError c)
  end.

(** [s == v]: the boolean mask. *)
Definition series_eq (s : Series) (v : value) : list bool :=
  map (fun x => value_eqb x v) s.

(** [df[mask]]: the rows whose mask entry is [True]. *)
Definition select (df : DataFrame) (mask : list bool) : DataFrame :=
  {| columns := columns df;
     rows := map fst (filter snd (combine (rows df) mask)) |}.

(** ** NumPy and Python numerics *)

(** [np.sum] *)
Definition np_sum (l : list R) : R := fold_right Rplus 0 l.

(** [np.log2], elementwise *)
Definition log2 (x : R) : R := ln x / ln 2.
Definition np_log2 (l : list R) : list R := map log2 l.

(** [np.square], elementwise *)
Definition np_square (l : list R) : list R := map (fun x => x * x) l.

(** [a * b] on arrays of the same length, elementwise *)
Definition np_mul (a b : list R) : list R :=
  map (fun xy => fst xy * snd xy) (combine a b).

(** Nearest integer, ties to the even one. *)
Definition round_half_even (x : R) : Z :=
  let n := Zfloor x in
  let f := x - IZR n in
  if Rlt_dec f (1 / 2) then n
  else if Rlt_dec (1 / 2) f then (n + 1)%Z
  else if Z.even n then n else (n + 1)%Z.

(** [round(x, ndigits)], on the exact value (see the note on ties at the
    head of the file). *)
Definition round (x : R) (ndigits : nat) : R :=
  IZR (round_half_even (x * 10 ^ ndigits)) / 10 ^ ndigits.

(** [a / b] on Python ints *)
Definition py_div (a b : Z) : outcome R :=
  if (b =? 0)%Z then Raises ZeroDivisionError else Returns (IZR a / IZR b).

(** ** The notebook's functions *)

(** The [if / elif / else] of [compute_impurity]: the local [impurity]
    before it is rounded. *)
Definition impurity_of (probs : list R) (impurity_criterion : string) : outcome R :=
  if String.eqb impurity_criterion "entropy" then
    Returns (-1 * np_sum (np_mul (np_log2 probs) probs))
  else if String.eqb impurity_criterion "gini" then
    Returns (1 - np_sum (np_square probs))
  else
    Raises (ValueError "Unknown impurity criterion").

Definition compute_impurity (feature : Series) (impurity_criterion : string)
  : outcome R :=
  let probs := map snd (value_counts_normalize feature) in
  obind (impurity_of probs impurity_criterion) (fun impurity =>
  Returns (round impurity 3)).

(** One iteration of the loop over the levels; the loop-carried variables
    are [entropy_list] and [weight_list]. *)
Definition level_step (df : DataFrame) (target descriptive_feature split_criterion : string)
  (level : value) (acc : list R * list R) : M (list R * list R) :=
  (let '(entropy_list, weight_list) := acc in
   dcol <- lift (getitem df descriptive_feature) ;;
   let df_feature_level := select df (series_eq dcol level) in
   tcol <- lift (getitem df_feature_level target) ;;
   entropy_level <- lift (compute_impurity tcol split_criterion) ;;
   let entropy_list := entropy_list ++ [round entropy_level 3] in
   weight_level <- lift (py_div (len (rows df_feature_level)) (len (rows df))) ;;
   let weight_list := weight_list ++ [round weight_level 3] in
   ret (entropy_list, weight_list))%py.

Definition comp_feature_information_gain
  (df : DataFrame) (target descriptive_feature split_criterion : string) : M R :=
  (print [PStr "target feature:"; PStr target] ;;
   print [PStr "descriptive_feature:"; PStr descriptive_feature] ;;
   print [PStr "split criterion:"; PStr split_criterion] ;;
   tcol <- lift (getitem df target) ;;
   target_entropy <- lift (compute_impurity tcol split_criterion) ;;
   dcol <- lift (getitem df descriptive_feature) ;;
   lists <- for_each (unique dcol)
              (level_step df target descriptive_feature split_criterion) ([], []) ;;
   let entropy_list := fst lists in
   let weight_list := snd lists in
   print [PStr "impurity of partitions:"; PList entropy_list] ;;
   print [PStr "weights of partitions:"; PList weight_list] ;;
   let feature_remaining_impurity := np_sum (np_mul entropy_list weight_list) in
   print [PStr "remaining impurity:"; PFloat feature_remaining_impurity] ;;
   let information_gain := target_entropy - feature_remaining_impurity in
   print [PStr "information gain:"; PFloat information_gain] ;;
   print [PStr "===================="] ;;
   ret information_gain)%py.

(** Running a computation from an empty output log. *)
Definition run {A} (m : M A) : outcome A * list line := m [].

(** ** The formulas of the specification

    These follow the words of the specification, not the code; the
    theorems below compare the code with them. *)

(** Relative frequency of each distinct label: its count divided by the
    length of the sequence. *)
Definition spec_distribution (s : Series) : list R :=
  map (fun v => IZR (count v s) / IZR (len s)) (unique s).

(** Entropy: [- sum p_i * log2 p_i]. *)
Definition spec_entropy (p : list R) : R :=
  - np_sum (map (fun x => x * log2 x) p).

(** Gini index: [1 - sum p_i ^ 2]. *)
Definition spec_gini (p : list R) : R :=
  1 - np_sum (map (fun x => x ^ 2) p).

(** The impurity of a label sequence under a supported criterion. *)
Definition spec_impurity (s : Series) (criterion : string) : R :=
  if String.eqb criterion "entropy" then spec_entropy (spec_distribution s)
  else spec_gini (spec_distribution s).

Definition supported (criterion : string) : Prop :=
  criterion = "entropy"%string \/ criterion = "gini"%string.

(** All labels of the sequence are identical. *)
Definition homogeneous (s : Series) : Prop :=
  forall v w, In v s -> In w s -> v = w.

(** The partition of a level: the rows whose cell in column [j] is the
    level. *)
Definition spec_partition (df : DataFrame) (j : nat) (level : value)
  : list (list value) :=
  filter (fun r => value_eqb (cell j r) level) (rows df).

(** [x] agrees with the three-decimal figure [y]: it is within half a unit
    of the third decimal. *)
Definition agrees3 (x y : R) : Prop :=
  y - 5 / 10000 <= x <= y + 5 / 10000.

(** [y] is [x] rounded to 3 decimals: a multiple of 0.001 nearest to [x].
    When [x] is exactly half-way, both neighbours qualify. *)
Definition nearest3 (x y : R) : Prop :=
  exists z : Z, y = IZR z / 1000 /\ IZR z - 1 / 2 <= 1000 * x <= IZR z + 1 / 2.

(** The value of an outcome, if it is one. *)
Definition returned {A} (o : outcome A) : option A :=
  match o with
  | Returns a => Some a
  | Raises _ => None
  end.

(** ** What one call of [comp_feature_information_gain] computes

    [i] is the position of the target column and [j] the position of the
    descriptive column. *)

(** The levels of the descriptive column, in order of first appearance. *)
Definition levels (df : DataFrame) (j : nat) : list value :=
  unique (map (cell j) (rows df)).

(** The target values within the partition of a level. *)
Definition partition_targets (df : DataFrame) (i j : nat) (level : value)
  : Series :=
  map (cell i) (spec_partition df j level).

(** The size-weight of a level: [|partition| / |dataset|]. *)
Definition spec_weight (df : DataFrame) (j : nat) (level : value) : R :=
  IZR (len (spec_partition df j level)) / IZR (len (rows df)).

(** The number [compute_impurity] hands back (0 where it raises). *)
Definition impurity_value (s : Series) (criterion : string) : R :=
  match compute_impurity s criterion with
  | Returns x => x
  | Raises _ => 0
  end.

(** The entries of [entropy_list] and of [weight_list]. *)
Definition partition_impurities (df : DataFrame) (i j : nat) (criterion : string)
  : list R :=
  map (fun level => round (spec_impurity (partition_targets df i j level) criterion) 3)
      (levels df j).

Definition partition_weights (df : DataFrame) (j : nat) : list R :=
  map (fun level => round (spec_weight df j level) 3) (levels df j).

(** The value of [feature_remaining_impurity]. *)
Definition remaining_impurity (df : DataFrame) (i j : nat) (criterion : string)
  : R :=
  np_sum (np_mul (partition_impurities df i j criterion) (partition_weights df j)).

(** The value of [target_entropy]. *)
Definition target_impurity (df : DataFrame) (i : nat) (criterion : string) : R :=
  round (spec_impurity (map (cell i) (rows df)) criterion) 3.

(** The value of [information_gain]. *)
Definition information_gain (df : DataFrame) (i j : nat) (criterion : string)
  : R :=
  target_impurity df i criterion - remaining_impurity df i j criterion.

(** The lines a complete call prints. *)
Definition gain_log (df : DataFrame) (target descriptive_feature criterion : string)
  (i j : nat) : list line :=
  [ [PStr "target feature:"; PStr target];
    [PStr "descriptive_feature:"; PStr descriptive_feature];
    [PStr "split criterion:"; PStr criterion];
    [PStr "impurity of partitions:"; PList (partition_impurities df i j criterion)];
    [PStr "weights of partitions:"; PList (partition_weights df j)];
    [PStr "remaining impurity:"; PFloat (remaining_impurity df i j criterion)];
    [PStr "information gain:"; PFloat (information_gain df i j criterion)];
    [PStr "===================="] ].

(** The remaining impurity as the specification words it: every partition
    impurity times the exact weight [|partition| / |dataset|]. *)
Definition spec_remaining_impurity (df : DataFrame) (i j : nat) (criterion : string)
  : R :=
  np_sum (map (fun level =>
                 impurity_value (partition_targets df i j level) criterion
                 * spec_weight df j level)
              (levels df j)).

(** An outcome that is an exception. *)
Definition raises {A} (o : outcome A) : Prop := exists e, o = Raises e.

(** ** The data of the notebook *)

Definition apple : value := VStr "apple".
Definition orange : value := VStr "orange".
Definition banana : value := VStr "banana".

(** [['apple']*3 + ['orange']*2 + ['banana']*2] *)
Definition fruits : Series :=
  repeat apple 3 ++ repeat orange 2 ++ repeat banana 2.

Definition veg_row (stream : bool) (slope elevation vegetation : string)
  : list value :=
  [VBool stream; VStr slope; VStr elevation; VStr vegetation].

(** FMLPDA_Table4_3.csv as the notebook displays it. *)
Definition vegetation_df : DataFrame :=
  {| columns := ["stream"; "slope"; "elevation"; "vegetation"]%string;
     rows :=
       [ veg_row false "steep" "high" "chapparal";
         veg_row true "moderate" "low" "riparian";
         veg_row true "steep" "medium" "riparian";
         veg_row false "steep" "medium" "chapparal";
         veg_row false "flat" "high" "conifer";
         veg_row true "steep" "highest" "conifer";
         veg_row true "steep" "high" "chapparal" ] |}.

(** A frame with the columns of the vegetation data and no row. *)
Definition empty_vegetation_df : DataFrame :=
  {| columns := ["stream"; "slope"; "elevation"; "vegetation"]%string;
     rows := [] |}.


(** Three small frames with a descriptive column and a target column. *)
Definition two_columns : list string := ["feature"; "label"]%string.

Definition small_df : DataFrame :=
  {| columns := two_columns;
     rows := [ [VStr "x"; VStr "a"]; [VStr "x"; VStr "b"]; [VStr "y"; VStr "a"] ] |}.

Definition pure_df : DataFrame :=
  {| columns := two_columns;
     rows := [ [VStr "x"; VStr "a"]; [VStr "x"; VStr "a"] ] |}.

Definition mixed_df : DataFrame :=
  {| columns := two_columns;
     rows := [ [VStr "x"; VStr "a"]; [VStr "x"; VStr "b"] ] |}.

(** ** The loop over the descriptive features

    The two cells that call [comp_feature_information_gain] for every
    column but the target:

      for feature in df.drop(columns='vegetation').columns:
          feature_info_gain = comp_feature_information_gain(
              df, 'vegetation', feature, split_criterion)

    with the frame, the target name and the criterion as parameters. *)

Fixpoint remove_at {A} (i : nat) (l : list A) : list A :=
  match l, i with
  | [], _ => []
  | _ :: t, O => t
  | x :: t, S k => x :: remove_at k t
  end.

(** [df.drop(columns=c)]: the frame without the column [c], or [KeyError]
    (column names are taken to be distinct). *)
Definition drop (df : DataFrame) (c : string) : outcome DataFrame :=
  match index_of c (columns df) with
  | Some i =>
      Returns {| columns := remove_at i (columns df);
                 rows := map (remove_at i) (rows df) |}
  | None => Raises (KeyError c)
  end.

(** The loop; [feature_info_gain] is unbound until the first turn. *)
Definition gain_of_each_feature (df : DataFrame) (target split_criterion : string)
  : M (option R) :=
  (dropped <- lift (drop df target) ;;
   for_each (columns dropped)
     (fun feature _ =>
        feature_info_gain <-
          comp_feature_information_gain df target feature split_criterion ;;
        ret (Some feature_info_gain))
     None)%py.

(** The columns other than the target, in column order. *)
Definition descriptive_features (df : DataFrame) (target : string) : list string :=
  filter (fun c => negb (String.eqb c target)) (columns df).

(** The position of a column (0 for a name that is not a column). *)
Definition position (df : DataFrame) (c : string) : nat :=
  match index_of c (columns df) with
  | Some i => i
  | None => O
  end.

(** The three lines every call prints first. *)
Definition header (target descriptive_feature criterion : string) : list line :=
  [ [PStr "target feature:"; PStr target];
    [PStr "descriptive_feature:"; PStr descriptive_feature];
    [PStr "split criterion:"; PStr criterion] ].

(** [['apple', 'orange', 'banana', 'mango', 'blueberry', 'watermelon',
    'pear']] *)
Definition fruits2 : Series :=
  [VStr "apple"; VStr "orange"; VStr "banana"; VStr "mango"; VStr "blueberry";
   VStr "watermelon"; VStr "pear"].

(** Twelve rows, six levels of the feature, each with one 'a' and one
    'b'. *)
Definition independent_df : DataFrame :=
  {| columns := two_columns;
     rows := [ [VStr "u"; VStr "a"]; [VStr "u"; VStr "b"];
               [VStr "v"; VStr "a"]; [VStr "v"; VStr "b"];
               [VStr "w"; VStr "a"]; [VStr "w"; VStr "b"];
               [VStr "x"; VStr "a"]; [VStr "x"; VStr "b"];
               [VStr "y"; VStr "a"]; [VStr "y"; VStr "b"];
               [VStr "z"; VStr "a"]; [VStr "z"; VStr "b"] ] |}.

(** The rows of [small_df] in another order. *)
Definition small_df_shuffled : DataFrame :=
  {| columns := two_columns;
     rows := [ [VStr "y"; VStr "a"]; [VStr "x"; VStr "b"]; [VStr "x"; VStr "a"] ] |}.

(** A frame whose feature column is constant. *)
Definition constant_df : DataFrame :=
  {| columns := two_columns;
     rows := [ [VStr "x"; VStr "a"]; [VStr "x"; VStr "b"]; [VStr "x"; VStr "a"] ] |}.

(** A frame whose feature column settles the label. *)
Definition determined_df : DataFrame :=
  {| columns := two_columns;
     rows := [ [VStr "x"; VStr "a"]; [VStr "y"; VStr "b"]; [VStr "x"; VStr "a"] ] |}.

(** An injective renaming of the labels. *)
Definition rename (v : value) : value :=
  match v with
  | VBool b => VBool (negb b)
  | VStr s => VStr (String.append "_" s)
  end.

(** ** Evaluating the data of a concrete call *)

(** Replace a closed term over labels, strings and integers by its value. *)
Ltac crunch t := let v := eval vm_compute in t in change t with v.

Ltac crunch_data :=
  repeat match goal with
    | |- context [levels ?df ?j] => crunch (levels df j)
    | |- context [partition_targets ?df ?i ?j ?l] => crunch (partition_targets df i j l)
    | |- context [spec_partition ?df ?j ?l] => crunch (spec_partition df j l)
    | |- context [rows ?df] => crunch (rows df)
    | |- context [unique ?s] => crunch (unique s)
    | |- context [count ?v ?s] => crunch (count v s)
    | |- context [len ?l] => crunch (len l)
    | |- context [String.eqb ?a ?b] => crunch (String.eqb a b)
    end.

(** The frequencies of a concrete sequence. *)
Ltac distribution :=
  unfold spec_impurity; crunch_data; cbv iota;
  unfold spec_distribution; crunch_data; cbn [map]; crunch_data.

(** ** Labels and counting *)

Lemma value_eqb_eq (a b : value) : value_eqb a b = true <-> a = b.
Proof.
  destruct a as [x|x], b as [y|y]; simpl; split; intro H;
    try discriminate; try (inversion H; subst).
  - apply eqb_prop in H. now subst.
  - apply eqb_reflx.
  - apply String.eqb_eq in H. now subst.
  - apply String.eqb_refl.
Qed.

Lemma value_eqb_refl (a : value) : value_eqb a a = true.
Proof. now apply value_eqb_eq. Qed.

Lemma value_eqb_sym (a b : value) : value_eqb a b = value_eqb b a.
Proof.
  destruct (value_eqb a b) eqn:E, (value_eqb b a) eqn:F; auto.
  - apply value_eqb_eq in E. subst. now rewrite value_eqb_refl in F.
  - apply value_eqb_eq in F. subst. now rewrite value_eqb_refl in E.
Qed.

Lemma differs_true (v w : value) : differs v w = true <-> v <> w.
Proof.
  unfold differs. rewrite negb_true_iff.
  split.
  - intros H E. apply value_eqb_eq in E. congruence.
  - intros H. destruct (value_eqb v w) eqn:E; auto.
    apply value_eqb_eq in E. contradiction.
Qed.

Lemma unique_In (s : Series) (v : value) : In v (unique s) <-> In v s.
Proof.
  induction s as [|w s IH]; simpl; [tauto|].
  rewrite filter_In, IH, differs_true.
  split.
  - intros [H|[H _]]; auto.
  - intros [H|H]; auto.
    destruct (value_eqb w v) eqn:E.
    + apply value_eqb_eq in E. auto.
    + right. split; auto. intro. subst. now rewrite value_eqb_refl in E.
Qed.

Lemma unique_NoDup (s : Series) : NoDup (unique s).
Proof.
  induction s as [|w s IH]; simpl; constructor.
  - rewrite filter_In, differs_true. intros [_ H]. now apply H.
  - now apply NoDup_filter.
Qed.

Lemma count_nonneg (v : value) (s : Series) : (0 <= count v s)%Z.
Proof. induction s as [|w s IH]; simpl; [lia|]. destruct (value_eqb v w); lia. Qed.

Lemma count_pos (v : value) (s : Series) : In v s -> (0 < count v s)%Z.
Proof.
  induction s as [|w s IH]; simpl; [tauto|].
  intros [->|H].
  - rewrite value_eqb_refl. pose proof (count_nonneg v s). lia.
  - specialize (IH H). destruct (value_eqb v w); lia.
Qed.

Lemma count_absent (v : value) (s : Series) : ~ In v s -> count v s = 0%Z.
Proof.
  induction s as [|w s IH]; simpl; [tauto|].
  intros H. destruct (value_eqb v w) eqn:E.
  - apply value_eqb_eq in E. subst. tauto.
  - rewrite IH; tauto.
Qed.

Lemma count_le_len (v : value) (s : Series) : (count v s <= len s)%Z.
Proof.
  unfold len. induction s as [|w s IH]; simpl List.length; simpl count; [lia|].
  destruct (value_eqb v w); lia.
Qed.

(** The first pass of [value_counts] pairs every distinct label with its
    number of occurrences. *)
Lemma tally_count (s : Series) :
  tally s = map (fun v => (v, count v s)) (unique s).
Proof.
  induction s as [|w s IH]; simpl; [reflexivity|].
  rewrite value_eqb_refl. f_equal.
  rewrite IH. clear IH.
  induction (unique s) as [|u us IHu]; simpl; [reflexivity|].
  destruct (differs w u) eqn:E; simpl; rewrite IHu; [|reflexivity].
  f_equal. f_equal.
  unfold differs in E. apply negb_true_iff in E.
  rewrite value_eqb_sym, E. reflexivity.
Qed.

Lemma zsum_split (f : value -> Z) (v : value) (u : list value) :
  NoDup u ->
  zsum (map f u) =
    ((if existsb (value_eqb v) u then f v else 0)
     + zsum (map f (filter (differs v) u)))%Z.
Proof.
  unfold zsum.
  induction 1 as [|w u Hw Hu IH]; simpl; [reflexivity|].
  rewrite IH.
  assert (D : differs v w = negb (value_eqb v w)) by reflexivity.
  destruct (value_eqb v w) eqn:E; rewrite D; simpl.
  - apply value_eqb_eq in E. subst w.
    destruct (existsb (value_eqb v) u) eqn:X; [|lia].
    apply existsb_exists in X. destruct X as [x [Hx Ex]].
    apply value_eqb_eq in Ex. subst. contradiction.
  - lia.
Qed.

(** The counts add up to the length of the sequence. *)
Lemma count_total (s : Series) :
  zsum (map (fun v => count v s) (unique s)) = len s.
Proof.
  unfold len. induction s as [|w s IH]; [reflexivity|].
  cbn [unique map zsum fold_right count List.length].
  rewrite value_eqb_refl.
  rewrite Nat2Z.inj_succ, <- IH.
  rewrite (zsum_split (fun v => count v s) w (unique s) (unique_NoDup s)).
  assert (E : (if existsb (value_eqb w) (unique s) then count w s else 0%Z)
              = count w s).
  { destruct (existsb (value_eqb w) (unique s)) eqn:X; [reflexivity|].
    symmetry. apply count_absent. intro H.
    assert (existsb (value_eqb w) (unique s) = true); [|congruence].
    apply existsb_exists. exists w. split; [now apply unique_In|apply value_eqb_refl]. }
  rewrite E.
  assert (F : map (fun v => count v (w :: s)) (filter (differs w) (unique s))
              = map (fun v => count v s) (filter (differs w) (unique s))).
  { apply map_ext_in. intros a Ha. apply filter_In in Ha. destruct Ha as [_ Ha].
    simpl. unfold differs in Ha. apply negb_true_iff in Ha.
    rewrite value_eqb_sym, Ha. reflexivity. }
  unfold zsum in *. simpl in F. rewrite F. lia.
Qed.

Lemma insert_desc_perm (e : value * Z) (l : list (value * Z)) :
  Permutation (insert_desc e l) (e :: l).
Proof.
  induction l as [|h t IH]; simpl; [reflexivity|].
  destruct (snd h <=? snd e)%Z; [reflexivity|].
  rewrite IH. apply perm_swap.
Qed.

Lemma sort_desc_perm (l : list (value * Z)) : Permutation (sort_desc l) l.
Proof.
  induction l as [|h t IH]; simpl; [reflexivity|].
  rewrite insert_desc_perm. now constructor.
Qed.

Lemma zsum_perm (l l' : list Z) : Permutation l l' -> zsum l = zsum l'.
Proof. induction 1; simpl; lia. Qed.

Lemma np_sum_perm (l l' : list R) : Permutation l l' -> np_sum l = np_sum l'.
Proof. induction 1; simpl; lra. Qed.

Lemma value_counts_total (s : Series) :
  zsum (map snd (value_counts s)) = len s.
Proof.
  unfold value_counts.
  rewrite (zsum_perm _ (map snd (tally s)))
    by (apply Permutation_map, sort_desc_perm).
  rewrite tally_count, map_map. simpl. apply count_total.
Qed.

(** What [value_counts(normalize=True)] holds is the distribution of the
    specification, up to the order of the levels. *)
Lemma probs_distribution (s : Series) :
  Permutation (map snd (value_counts_normalize s)) (spec_distribution s).
Proof.
  unfold value_counts_normalize, spec_distribution.
  rewrite value_counts_total, map_map. simpl.
  unfold value_counts.
  rewrite (Permutation_map (fun kc => IZR (snd kc) / IZR (len s)) (sort_desc_perm (tally s))).
  rewrite tally_count, map_map. simpl. reflexivity.
Qed.

(** ** Rounding *)

Lemma round_half_even_near (x : R) (z : Z) :
  IZR z - 1 / 2 < x < IZR z + 1 / 2 -> round_half_even x = z.
Proof.
  intros [Hlo Hhi]. unfold round_half_even.
  pose proof (Zfloor_bound x) as [Fl Fu].
  assert (C : Zfloor x = z \/ Zfloor x = (z - 1)%Z).
  { assert (z - 1 <= Zfloor x)%Z.
    { apply Zfloor_lub. rewrite minus_IZR. lra. }
    assert (Zfloor x < z + 1)%Z.
    { apply lt_IZR. rewrite plus_IZR. lra. }
    lia. }
  destruct C as [C|C]; rewrite C in *.
  - destruct (Rlt_dec (x - IZR z) (1 / 2)); [reflexivity|lra].
  - rewrite minus_IZR in *.
    destruct (Rlt_dec (x - (IZR z - 1)) (1 / 2)); [lra|].
    destruct (Rlt_dec (1 / 2) (x - (IZR z - 1))); [lia|lra].
Qed.

Lemma round_half_even_IZR (z : Z) : round_half_even (IZR z) = z.
Proof. apply round_half_even_near. lra. Qed.

(** The rounded value is within one half of the argument. *)
Lemma round_half_even_dist (x : R) :
  IZR (round_half_even x) - 1 / 2 <= x <= IZR (round_half_even x) + 1 / 2.
Proof.
  unfold round_half_even.
  pose proof (Zfloor_bound x) as [Fl Fu].
  destruct (Rlt_dec (x - IZR (Zfloor x)) (1 / 2)) as [A|A]; [lra|].
  destruct (Rlt_dec (1 / 2) (x - IZR (Zfloor x))) as [B|B].
  - rewrite plus_IZR. lra.
  - destruct (Z.even (Zfloor x)); [|rewrite plus_IZR]; lra.
Qed.

(** Ties go to the even neighbour, so one half rounds to zero from both
    sides. *)
Lemma round_half_even_zero (x : R) :
  round_half_even x = 0%Z <-> - (1 / 2) <= x <= 1 / 2.
Proof.
  split.
  - intros H. pose proof (round_half_even_dist x) as D. rewrite H in D. lra.
  - intros [Hlo Hhi].
    destruct (Req_dec x (1 / 2)) as [E|E].
    { unfold round_half_even.
      assert (F : Zfloor x = 0%Z) by (apply Zfloor_eq; lra).
      rewrite F. simpl.
      destruct (Rlt_dec (x - 0) (1 / 2)); [reflexivity|].
      destruct (Rlt_dec (1 / 2) (x - 0)); [lra|reflexivity]. }
    destruct (Req_dec x (- (1 / 2))) as [E'|E'].
    { unfold round_half_even.
      assert (F : Zfloor x = (-1)%Z) by (apply Zfloor_eq; lra).
      rewrite F. simpl.
      destruct (Rlt_dec (x - -1) (1 / 2)); [lra|].
      destruct (Rlt_dec (1 / 2) (x - -1)); [lra|reflexivity]. }
    apply round_half_even_near. lra.
Qed.

Lemma round3_unfold (x : R) :
  round x 3 = IZR (round_half_even (x * 1000)) / 1000.
Proof. unfold round. replace (10 ^ 3) with 1000 by (simpl; lra). reflexivity. Qed.

(** A value strictly inside the half-unit window around [z / 1000] rounds
    to [z / 1000]. *)
Lemma round3_near (x : R) (z : Z) :
  IZR z - 1 / 2 < 1000 * x < IZR z + 1 / 2 -> round x 3 = IZR z / 1000.
Proof.
  intros H. rewrite round3_unfold.
  rewrite (round_half_even_near (x * 1000) z) by lra. reflexivity.
Qed.

Lemma round3_milli (z : Z) : round (IZR z / 1000) 3 = IZR z / 1000.
Proof. apply round3_near. lra. Qed.

(** Rounding twice is rounding once. *)
Lemma round3_idem (x : R) : round (round x 3) 3 = round x 3.
Proof. rewrite (round3_unfold x). apply round3_milli. Qed.

Lemma round3_zero (x : R) :
  round x 3 = 0 <-> - (5 / 10000) <= x <= 5 / 10000.
Proof.
  rewrite round3_unfold. split.
  - intros H.
    assert (Z0 : round_half_even (x * 1000) = 0%Z).
    { apply eq_IZR. lra. }
    apply round_half_even_zero in Z0. lra.
  - intros H.
    assert (Z0 : round_half_even (x * 1000) = 0%Z).
    { apply round_half_even_zero. lra. }
    rewrite Z0. lra.
Qed.

(** The result of [round(x, 3)] is within 0.0005 of [x]. *)
Lemma round3_dist (x : R) : Rabs (round x 3 - x) <= 5 / 10000.
Proof.
  rewrite round3_unfold.
  pose proof (round_half_even_dist (x * 1000)) as D.
  apply Rabs_le. lra.
Qed.

(** What [round] gives is a nearest 3-decimal number. *)
Lemma round3_nearest (x : R) : nearest3 x (round x 3).
Proof.
  exists (round_half_even (x * 1000)). split; [apply round3_unfold|].
  pose proof (round_half_even_dist (x * 1000)) as D. lra.
Qed.

(** Away from a tie there is one nearest 3-decimal number. *)
Lemma nearest3_unique (x y : R) (z : Z) :
  IZR z - 1 / 2 < 1000 * x < IZR z + 1 / 2 -> nearest3 x y -> y = IZR z / 1000.
Proof.
  intros H [z' [-> H']]. f_equal. f_equal.
  assert (A : (z' < z + 1)%Z) by (apply lt_IZR; rewrite plus_IZR; lra).
  assert (B : (z - 1 < z')%Z) by (apply lt_IZR; rewrite minus_IZR; lra).
  lia.
Qed.

Lemma Forall2_map_self {A B} (P : A -> B -> Prop) (f : A -> B) (l : list A) :
  (forall x, In x l -> P x (f x)) -> Forall2 P l (map f l).
Proof.
  induction l as [|a l IH]; intros H; [constructor|].
  cbn [map]. constructor; [apply H; now left|].
  apply IH. intros x Hx. apply H. now right.
Qed.

(** ** [compute_impurity] against the formulas *)

Lemma np_mul_log2 (p : list R) :
  np_mul (np_log2 p) p = map (fun x => log2 x * x) p.
Proof.
  unfold np_mul, np_log2.
  induction p as [|x p IH]; simpl; [reflexivity|]. now rewrite IH.
Qed.

Lemma entropy_code_spec (p q : list R) :
  Permutation p q ->
  -1 * np_sum (np_mul (np_log2 p) p) = spec_entropy q.
Proof.
  intros H. unfold spec_entropy. rewrite np_mul_log2.
  rewrite (np_sum_perm _ _ (Permutation_map (fun x => log2 x * x) H)).
  replace (map (fun x => log2 x * x) q) with (map (fun x => x * log2 x) q).
  - lra.
  - apply map_ext. intros. lra.
Qed.

Lemma gini_code_spec (p q : list R) :
  Permutation p q ->
  1 - np_sum (np_square p) = spec_gini q.
Proof.
  intros H. unfold spec_gini, np_square.
  rewrite (np_sum_perm _ _ (Permutation_map (fun x => x * x) H)).
  f_equal. f_equal. apply map_ext. intros. lra.
Qed.

(** Under a supported criterion the function returns the rounded impurity
    of the specification's distribution, for every sequence. *)
Lemma compute_impurity_spec (s : Series) (criterion : string) :
  supported criterion ->
  compute_impurity s criterion = Returns (round (spec_impurity s criterion) 3).
Proof.
  intros [->| ->]; unfold compute_impurity, impurity_of, spec_impurity; simpl.
  - now rewrite (entropy_code_spec _ _ (probs_distribution s)).
  - now rewrite (gini_code_spec _ _ (probs_distribution s)).
Qed.

(** ** [comp_feature_information_gain], step by step *)

Lemma index_of_In (c : string) (cols : list string) :
  In c cols -> exists i, index_of c cols = Some i.
Proof.
  induction cols as [|c' cols IH]; simpl; [tauto|].
  intros H. destruct (String.eqb c c') eqn:E; [now exists O|].
  destruct H as [H|H].
  - subst. now rewrite String.eqb_refl in E.
  - destruct (IH H) as [i Hi]. rewrite Hi. now exists (S i).
Qed.

Lemma index_of_absent (c : string) (cols : list string) :
  ~ In c cols -> index_of c cols = None.
Proof.
  induction cols as [|c' cols IH]; simpl; [reflexivity|].
  intros H. destruct (String.eqb c c') eqn:E.
  - apply String.eqb_eq in E. subst. tauto.
  - rewrite IH; tauto.
Qed.

(** Selecting by the mask [df[c] == level] keeps the rows of the level's
    partition. *)
Lemma select_partition (df : DataFrame) (j : nat) (level : value) :
  rows (select df (series_eq (map (cell j) (rows df)) level))
  = spec_partition df j level.
Proof.
  unfold select, spec_partition, series_eq. simpl.
  induction (rows df) as [|r rs IH]; simpl; [reflexivity|].
  destruct (value_eqb (cell j r) level); simpl; now rewrite IH.
Qed.

Lemma len_nonzero {A} (l : list A) : l <> [] -> len l <> 0%Z.
Proof. destruct l; [congruence|]. unfold len. simpl. lia. Qed.

Section Call.

Variables (df : DataFrame) (target descriptive_feature criterion : string).
Variables (i j : nat).
Hypothesis Htarget : index_of target (columns df) = Some i.
Hypothesis Hdescr : index_of descriptive_feature (columns df) = Some j.
Hypothesis Hcrit : supported criterion.

(** One turn of the loop appends the rounded impurity and the rounded
    weight of the level, prints nothing and raises nothing. *)
Lemma level_step_run (level : value) (el wl : list R) (out : list line) :
  rows df <> [] ->
  level_step df target descriptive_feature criterion level (el, wl) out
  = (Returns
       (el ++ [round (spec_impurity (partition_targets df i j level) criterion) 3],
        wl ++ [round (spec_weight df j level) 3]),
     out).
Proof.
  intros Hrows.
  unfold level_step, bind, lift, ret, getitem.
  rewrite Hdescr. cbn [columns select]. rewrite Htarget.
  fold (select df (series_eq (map (cell j) (rows df)) level)).
  rewrite select_partition.
  fold (partition_targets df i j level).
  rewrite (compute_impurity_spec _ _ Hcrit).
  unfold py_div.
  destruct (Z.eqb_spec (len (rows df)) 0) as [E|E].
  - exfalso. now apply (len_nonzero (rows df)).
  - rewrite round3_idem. reflexivity.
Qed.

Lemma loop_run (ls : list value) (el wl : list R) (out : list line) :
  ls = [] \/ rows df <> [] ->
  for_each ls (level_step df target descriptive_feature criterion) (el, wl) out
  = (Returns
       (el ++ map (fun level =>
                     round (spec_impurity (partition_targets df i j level) criterion) 3) ls,
        wl ++ map (fun level => round (spec_weight df j level) 3) ls),
     out).
Proof.
  revert el wl. induction ls as [|l ls IH]; intros el wl H; cbn [for_each map].
  - unfold ret. now rewrite !app_nil_r.
  - assert (Hrows : rows df <> []) by (destruct H; [discriminate|assumption]).
    unfold bind at 1. rewrite (level_step_run l el wl out Hrows).
    rewrite IH by now right.
    now rewrite <- !app_assoc.
Qed.

(** A call with both columns present and a supported criterion returns
    the gain and prints the eight lines of [gain_log] after what was
    printed before. *)
Lemma call_run (out : list line) :
  comp_feature_information_gain df target descriptive_feature criterion out
  = (Returns (information_gain df i j criterion),
     out ++ gain_log df target descriptive_feature criterion i j).
Proof.
  unfold comp_feature_information_gain, bind, print, lift, ret, getitem.
  rewrite Htarget, Hdescr.
  rewrite (compute_impurity_spec _ _ Hcrit).
  rewrite loop_run.
  - cbn [fst snd app].
    unfold gain_log, information_gain, remaining_impurity, target_impurity,
      partition_impurities, partition_weights, levels.
    rewrite <- !app_assoc. reflexivity.
  - destruct (rows df); [now left|now right].
Qed.

End Call.

(** A call with both columns present and a supported criterion, told by
    its parts: the target impurity [T], the list [el] of partition
    impurities and the list [wl] of weights, one entry per level. *)
Lemma call_parts
  (df : DataFrame) (target descriptive_feature criterion : string) (i j : nat) :
  index_of target (columns df) = Some i ->
  index_of descriptive_feature (columns df) = Some j ->
  supported criterion ->
  exists T el wl,
    compute_impurity (map (cell i) (rows df)) criterion = Returns T
    /\ nearest3 (spec_impurity (map (cell i) (rows df)) criterion) T
    /\ Forall2 (fun level e =>
                  compute_impurity (partition_targets df i j level) criterion
                  = Returns e
                  /\ nearest3 (spec_impurity (partition_targets df i j level)
                                 criterion) e)
               (levels df j) el
    /\ Forall2 (fun level w => nearest3 (spec_weight df j level) w)
               (levels df j) wl
    /\ run (comp_feature_information_gain df target descriptive_feature criterion)
       = (Returns (T - np_sum (np_mul el wl)),
          [ [PStr "target feature:"; PStr target];
            [PStr "descriptive_feature:"; PStr descriptive_feature];
            [PStr "split criterion:"; PStr criterion];
            [PStr "impurity of partitions:"; PList el];
            [PStr "weights of partitions:"; PList wl];
            [PStr "remaining impurity:"; PFloat (np_sum (np_mul el wl))];
            [PStr "information gain:"; PFloat (T - np_sum (np_mul el wl))];
            [PStr "===================="] ]).
Proof.
  intros Hi Hj Hc.
  exists (target_impurity df i criterion), (partition_impurities df i j criterion),
    (partition_weights df j).
  split; [apply (compute_impurity_spec _ _ Hc)|].
  split; [apply round3_nearest|].
  split; [|split].
  - apply Forall2_map_self. intros level _.
    split; [apply (compute_impurity_spec _ _ Hc)|apply round3_nearest].
  - apply Forall2_map_self. intros level _. apply round3_nearest.
  - unfold run.
    now rewrite (call_run df target descriptive_feature criterion i j Hi Hj Hc).
Qed.

(** ** Unsupported criterion, empty input *)

Lemma round3_0 : round 0 3 = 0.
Proof. apply round3_zero. lra. Qed.

Lemma round3_1 : round 1 3 = 1.
Proof. replace 1 with (IZR 1000 / 1000) at 1 2 by lra. apply round3_milli. Qed.

Lemma compute_impurity_nil_entropy : compute_impurity [] "entropy" = Returns 0.
Proof.
  unfold compute_impurity, impurity_of. simpl.
  replace (-1 * 0) with 0 by lra. now rewrite round3_0.
Qed.

Lemma compute_impurity_nil_gini : compute_impurity [] "gini" = Returns 1.
Proof.
  unfold compute_impurity, impurity_of. simpl.
  replace (1 - 0) with 1 by lra. now rewrite round3_1.
Qed.

Lemma eqb_neq_false (a b : string) : a <> b -> String.eqb a b = false.
Proof. intros H. now apply String.eqb_neq. Qed.

(** C5. For every label sequence and every criterion string other than
    'entropy' and 'gini', [compute_impurity] raises the unknown-criterion
    error ([ValueError('Unknown impurity criterion')]) and returns no
    impurity value. *)
Theorem compute_impurity_unknown_criterion (s : Series) (criterion : string) :
  criterion <> "entropy"%string ->
  criterion <> "gini"%string ->
  compute_impurity s criterion = Raises (ValueError "Unknown impurity criterion").
Proof.
  intros He Hg. unfold compute_impurity, impurity_of.
  rewrite (eqb_neq_false _ _ He), (eqb_neq_false _ _ Hg). reflexivity.
Qed.

Lemma compute_impurity_unknown_criterion_witness :
  "foo"%string <> "entropy"%string
  /\ "foo"%string <> "gini"%string
  /\ compute_impurity [VStr "a"; VStr "b"] "foo"
     = Raises (ValueError "Unknown impurity criterion").
Proof.
  split; [discriminate|]. split; [discriminate|].
  apply (compute_impurity_unknown_criterion [VStr "a"; VStr "b"] "foo");
    discriminate.
Defined.

(** The error of [compute_impurity] leaves [comp_feature_information_gain]
    after its three header lines. *)
Lemma unknown_criterion_propagates
  (df : DataFrame) (target descriptive_feature criterion : string) :
  In target (columns df) ->
  criterion <> "entropy"%string ->
  criterion <> "gini"%string ->
  run (comp_feature_information_gain df target descriptive_feature criterion)
  = (Raises (ValueError "Unknown impurity criterion"),
     [ [PStr "target feature:"; PStr target];
       [PStr "descriptive_feature:"; PStr descriptive_feature];
       [PStr "split criterion:"; PStr criterion] ]).
Proof.
  intros Ht He Hg. destruct (index_of_In _ _ Ht) as [i Hi].
  unfold run, comp_feature_information_gain, bind, print, lift, getitem.
  rewrite Hi. unfold compute_impurity, impurity_of.
  rewrite (eqb_neq_false _ _ He), (eqb_neq_false _ _ Hg). reflexivity.
Qed.

(** A column that is not in the frame is a [KeyError]. *)
Lemma missing_target_column
  (df : DataFrame) (target descriptive_feature criterion : string) :
  ~ In target (columns df) ->
  fst (run (comp_feature_information_gain df target descriptive_feature criterion))
  = Raises (KeyError target).
Proof.
  intros Ht.
  unfold run, comp_feature_information_gain, bind, print, lift, getitem.
  now rewrite (index_of_absent _ _ Ht).
Qed.

(** C4 (as stated, refuted). An empty label sequence raises nothing under
    either supported criterion. *)
Lemma compute_impurity_empty_no_error :
  ~ raises (compute_impurity [] "entropy")
  /\ ~ raises (compute_impurity [] "gini").
Proof.
  rewrite compute_impurity_nil_entropy, compute_impurity_nil_gini.
  split; intros [e H]; discriminate.
Qed.

(** C4 (amended). On an empty label sequence [compute_impurity] raises no
    error: the distribution is empty, the sums are empty, and the function
    returns 0 under 'entropy' and 1 under 'gini'. *)
Theorem compute_impurity_empty :
  compute_impurity [] "entropy" = Returns 0
  /\ compute_impurity [] "gini" = Returns 1.
Proof. split; [apply compute_impurity_nil_entropy|apply compute_impurity_nil_gini]. Qed.

Lemma spec_impurity_nil (criterion : string) :
  round (spec_impurity [] criterion) 3
  = if String.eqb criterion "entropy" then 0 else 1.
Proof.
  unfold spec_impurity, spec_entropy, spec_gini. simpl.
  destruct (String.eqb criterion "entropy").
  - replace (- 0) with 0 by lra. apply round3_0.
  - replace (1 - 0) with 1 by lra. apply round3_1.
Qed.

Lemma zero_rows_gain (cols : list string) (i j : nat) (criterion : string) :
  information_gain {| columns := cols; rows := [] |} i j criterion
  = if String.eqb criterion "entropy" then 0 else 1.
Proof.
  unfold information_gain, target_impurity, remaining_impurity. simpl.
  rewrite spec_impurity_nil. destruct (String.eqb criterion "entropy"); lra.
Qed.

(** C6 (as stated, refuted). On the vegetation columns with zero rows the
    call raises nothing. *)
Lemma zero_rows_no_error :
  ~ raises (fst (run (comp_feature_information_gain empty_vegetation_df
                        "vegetation" "elevation" "entropy"))).
Proof.
  unfold run.
  rewrite (call_run empty_vegetation_df "vegetation" "elevation" "entropy" 3 2
             eq_refl eq_refl (or_introl eq_refl)).
  simpl fst. intros [e H]. discriminate.
Qed.

(** C6 (amended). On a dataset with zero rows, both attributes being
    columns and the criterion supported, [comp_feature_information_gain]
    raises no error: the loop over the levels does not run (both printed
    lists are empty), the remaining impurity printed is 0, and the gain,
    printed and returned, is the impurity of the empty target column, 0
    under 'entropy' and 1 under 'gini'. *)
Theorem zero_rows_returns
  (cols : list string) (target descriptive_feature criterion : string) :
  In target cols ->
  In descriptive_feature cols ->
  supported criterion ->
  let gain := if String.eqb criterion "entropy" then 0 else 1 in
  run (comp_feature_information_gain {| columns := cols; rows := [] |}
         target descriptive_feature criterion)
  = (Returns gain,
     [ [PStr "target feature:"; PStr target];
       [PStr "descriptive_feature:"; PStr descriptive_feature];
       [PStr "split criterion:"; PStr criterion];
       [PStr "impurity of partitions:"; PList []];
       [PStr "weights of partitions:"; PList []];
       [PStr "remaining impurity:"; PFloat 0];
       [PStr "information gain:"; PFloat gain];
       [PStr "===================="] ]).
Proof.
  intros Ht Hd Hc gain.
  destruct (index_of_In _ _ Ht) as [i Hi].
  destruct (index_of_In _ _ Hd) as [j Hj].
  unfold run.
  rewrite (call_run {| columns := cols; rows := [] |} target descriptive_feature
             criterion i j Hi Hj Hc).
  cbn [app]. unfold gain_log. rewrite zero_rows_gain. fold gain.
  reflexivity.
Qed.

Lemma zero_rows_returns_witness :
  In "vegetation"%string (columns empty_vegetation_df)
  /\ In "elevation"%string (columns empty_vegetation_df)
  /\ supported "gini"
  /\ run (comp_feature_information_gain empty_vegetation_df
             "vegetation" "elevation" "gini")
     = (Returns 1,
        [ [PStr "target feature:"; PStr "vegetation"];
          [PStr "descriptive_feature:"; PStr "elevation"];
          [PStr "split criterion:"; PStr "gini"];
          [PStr "impurity of partitions:"; PList []];
          [PStr "weights of partitions:"; PList []];
          [PStr "remaining impurity:"; PFloat 0];
          [PStr "information gain:"; PFloat 1];
          [PStr "===================="] ]).
Proof.
  assert (Ht : In "vegetation"%string (columns empty_vegetation_df))
    by (simpl; tauto).
  assert (Hd : In "elevation"%string (columns empty_vegetation_df))
    by (simpl; tauto).
  assert (Hc : supported "gini") by (now right).
  repeat split; try assumption.
  exact (zero_rows_returns _ "vegetation" "elevation" "gini" Ht Hd Hc).
Defined.

(** ** The distribution of a sequence *)

Lemma np_sum_scaled (f : value -> Z) (d : R) (l : list value) :
  np_sum (map (fun v => IZR (f v) / d) l) = IZR (zsum (map f l)) / d.
Proof.
  induction l as [|v l IH]; simpl.
  - lra.
  - rewrite IH, plus_IZR. lra.
Qed.

Lemma len_pos {A} (l : list A) : l <> [] -> 0 < IZR (len l).
Proof.
  intros H. apply IZR_lt. pose proof (len_nonzero l H). unfold len in *. lia.
Qed.

(** The frequencies of a non-empty sequence add up to one. *)
Lemma distribution_total (s : Series) :
  s <> [] -> np_sum (spec_distribution s) = 1.
Proof.
  intros H. unfold spec_distribution.
  rewrite np_sum_scaled, count_total.
  pose proof (len_pos s H). now field_simplify_eq; [|lra].
Qed.

(** Each frequency lies in (0, 1]. *)
Lemma distribution_range (s : Series) (x : R) :
  In x (spec_distribution s) -> 0 < x <= 1.
Proof.
  unfold spec_distribution. rewrite in_map_iff.
  intros [v [<- Hv]]. apply (proj1 (unique_In s v)) in Hv.
  assert (Hs : s <> []) by (intros ->; contradiction).
  pose proof (len_pos s Hs) as Hl.
  pose proof (IZR_lt _ _ (count_pos v s Hv)) as Hc.
  pose proof (IZR_le _ _ (count_le_len v s)) as Hle.
  split.
  - now apply Rdiv_lt_0_compat.
  - apply Rmult_le_reg_r with (IZR (len s)); [assumption|].
    unfold Rdiv. rewrite Rmult_assoc, Rinv_l by lra. lra.
Qed.

(** C1. For a non-empty label sequence, [compute_impurity] with criterion
    'entropy' returns the entropy [- sum p_i * log2 p_i] of the distribution
    that gives each distinct label its count divided by the length of the
    sequence, and with 'gini' it returns [1 - sum p_i ^ 2] of the same
    distribution, both rounded to 3 decimal places: the value returned is a
    3-decimal number nearest to the formula's value.  The frequencies are
    positive (no [log2 0] arises) and add up to one. *)
Theorem compute_impurity_formula (s : Series) :
  s <> [] ->
  (exists x, compute_impurity s "entropy" = Returns x
             /\ nearest3 (spec_entropy (spec_distribution s)) x)
  /\ (exists x, compute_impurity s "gini" = Returns x
                /\ nearest3 (spec_gini (spec_distribution s)) x)
  /\ (forall p, In p (spec_distribution s) -> 0 < p <= 1)
  /\ np_sum (spec_distribution s) = 1.
Proof.
  intros Hs. split; [|split; [|split]].
  - exists (round (spec_entropy (spec_distribution s)) 3). split.
    + apply (compute_impurity_spec s "entropy"). now left.
    + apply round3_nearest.
  - exists (round (spec_gini (spec_distribution s)) 3). split.
    + apply (compute_impurity_spec s "gini"). now right.
    + apply round3_nearest.
  - apply distribution_range.
  - now apply distribution_total.
Qed.

Lemma compute_impurity_formula_witness :
  fruits <> []
  /\ (exists x, compute_impurity fruits "entropy" = Returns x
                /\ nearest3 (spec_entropy (spec_distribution fruits)) x)
  /\ (exists x, compute_impurity fruits "gini" = Returns x
                /\ nearest3 (spec_gini (spec_distribution fruits)) x)
  /\ (forall p, In p (spec_distribution fruits) -> 0 < p <= 1)
  /\ np_sum (spec_distribution fruits) = 1.
Proof.
  assert (H : fruits <> []) by discriminate.
  split; [exact H|]. exact (compute_impurity_formula fruits H).
Defined.

Lemma filter_none {A} (f : A -> bool) (l : list A) :
  (forall x, In x l -> f x = false) -> filter f l = [].
Proof.
  induction l as [|a l IH]; simpl; intros H; [reflexivity|].
  rewrite (H a) by now left. apply IH. intros x Hx. apply H. now right.
Qed.

Lemma homogeneous_unique (v : value) (s : Series) :
  homogeneous (v :: s) -> unique (v :: s) = [v].
Proof.
  intros H. simpl. f_equal. apply filter_none.
  intros x Hx. apply (proj1 (unique_In s x)) in Hx.
  assert (E : v = x) by (apply H; simpl; auto).
  subst. unfold differs. now rewrite value_eqb_refl.
Qed.

Lemma homogeneous_count (v : value) (s : Series) :
  (forall w, In w s -> w = v) -> count v s = len s.
Proof.
  unfold len. induction s as [|w s IH]; intros H; [reflexivity|].
  cbn [count List.length]. rewrite Nat2Z.inj_succ.
  rewrite (H w) by now left. rewrite value_eqb_refl.
  rewrite IH; [lia|]. intros x Hx. apply H. now right.
Qed.

(** A non-empty sequence of identical labels has the one-point
    distribution. *)
Lemma homogeneous_distribution (s : Series) :
  s <> [] -> homogeneous s -> spec_distribution s = [1].
Proof.
  intros Hs H. destruct s as [|v s]; [congruence|].
  unfold spec_distribution. rewrite (homogeneous_unique v s H).
  cbn [map]. rewrite homogeneous_count.
  - f_equal. pose proof (len_pos (v :: s) Hs). now field_simplify_eq; [|lra].
  - intros w Hw. symmetry. apply H; simpl; auto.
Qed.

Lemma log2_1 : log2 1 = 0.
Proof. unfold log2. rewrite ln_1. lra. Qed.

Lemma ln_2_pos : 0 < ln 2.
Proof. rewrite <- ln_1. apply ln_increasing; lra. Qed.

Lemma log2_nonpos (x : R) : 0 < x <= 1 -> log2 x <= 0.
Proof.
  intros [H0 H1]. unfold log2.
  assert (ln x <= 0).
  { destruct H1 as [H1| ->]; [|rewrite ln_1; lra].
    rewrite <- ln_1. left. now apply ln_increasing. }
  pose proof ln_2_pos.
  apply Rmult_le_reg_r with (ln 2); [assumption|].
  unfold Rdiv. rewrite Rmult_assoc, Rinv_l by lra. lra.
Qed.

Lemma log2_zero (x : R) : 0 < x -> log2 x = 0 -> x = 1.
Proof.
  intros H0 H. unfold log2 in H. pose proof ln_2_pos.
  assert (L : ln x = 0).
  { apply Rmult_eq_reg_r with (/ ln 2).
    - unfold Rdiv in H. lra.
    - apply Rinv_neq_0_compat. lra. }
  apply ln_inv; [assumption|lra|]. now rewrite ln_1.
Qed.

Lemma np_sum_nonneg (l : list R) :
  (forall x, In x l -> 0 <= x) -> 0 <= np_sum l.
Proof.
  induction l as [|a l IH]; simpl; intros H; [lra|].
  assert (0 <= a) by (apply H; now left).
  assert (0 <= np_sum l) by (apply IH; intros; apply H; now right).
  lra.
Qed.

Lemma np_sum_zero (l : list R) :
  (forall x, In x l -> 0 <= x) -> np_sum l = 0 -> forall x, In x l -> x = 0.
Proof.
  induction l as [|a l IH]; simpl; intros H S x Hx; [contradiction|].
  assert (0 <= a) by (apply H; now left).
  assert (0 <= np_sum l) by (apply np_sum_nonneg; intros; apply H; now right).
  destruct Hx as [<-|Hx]; [lra|].
  apply IH; auto. lra.
Qed.

Lemma np_sum_ones (l : list R) :
  (forall x, In x l -> x = 1) -> np_sum l = INR (List.length l).
Proof.
  induction l as [|a l IH]; intros H; [reflexivity|].
  cbn [np_sum fold_right List.length]. rewrite S_INR.
  fold (np_sum l). rewrite IH by (intros; apply H; now right).
  rewrite (H a) by now left. lra.
Qed.

(** The entropy as a sum of non-negative terms. *)
Lemma spec_entropy_terms (p : list R) :
  spec_entropy p = np_sum (map (fun x => - (x * log2 x)) p).
Proof.
  unfold spec_entropy. induction p as [|x p IH]; simpl in *; lra.
Qed.

(** The Gini index of frequencies that add up to one, as a sum of
    non-negative terms. *)
Lemma spec_gini_terms (p : list R) :
  np_sum p = 1 -> spec_gini p = np_sum (map (fun x => x * (1 - x)) p).
Proof.
  unfold spec_gini. intros H.
  assert (G : np_sum p - np_sum (map (fun x => x ^ 2) p)
              = np_sum (map (fun x => x * (1 - x)) p)).
  { clear H. induction p as [|x p IH]; simpl in *; lra. }
  rewrite <- G, H. reflexivity.
Qed.

Lemma unique_singleton (s : Series) (v : value) :
  unique s = [v] -> homogeneous s.
Proof.
  intros H a b Ha Hb.
  apply (proj2 (unique_In s a)) in Ha. apply (proj2 (unique_In s b)) in Hb.
  rewrite H in Ha, Hb. simpl in *.
  destruct Ha as [<-|[]], Hb as [<-|[]]. reflexivity.
Qed.

(** If every frequency is one, there is one level only. *)
Lemma all_ones_homogeneous (s : Series) :
  s <> [] ->
  (forall x, In x (spec_distribution s) -> x = 1) ->
  homogeneous s.
Proof.
  intros Hs H.
  pose proof (distribution_total s Hs) as T.
  rewrite (np_sum_ones _ H) in T.
  unfold spec_distribution in T. rewrite length_map in T.
  change 1 with (INR 1) in T. apply INR_eq in T.
  destruct (unique s) as [|v [|w u]] eqn:E; simpl in T; try discriminate.
  now apply (unique_singleton s v).
Qed.

(** Before rounding, the impurity is never negative. *)
Lemma spec_impurity_nonneg (s : Series) (criterion : string) :
  s <> [] -> 0 <= spec_impurity s criterion.
Proof.
  intros Hs. unfold spec_impurity.
  destruct (String.eqb criterion "entropy").
  - rewrite spec_entropy_terms. apply np_sum_nonneg.
    intros y Hy. apply in_map_iff in Hy. destruct Hy as [x [<- Hx]].
    pose proof (distribution_range s x Hx) as R.
    pose proof (log2_nonpos x R). nra.
  - rewrite spec_gini_terms by now apply distribution_total.
    apply np_sum_nonneg.
    intros y Hy. apply in_map_iff in Hy. destruct Hy as [x [<- Hx]].
    pose proof (distribution_range s x Hx) as R. nra.
Qed.

(** Before rounding, the impurity is zero exactly on homogeneous
    sequences. *)
Lemma spec_impurity_zero (s : Series) (criterion : string) :
  s <> [] -> (spec_impurity s criterion = 0 <-> homogeneous s).
Proof.
  intros Hs. split.
  - intros Z. apply all_ones_homogeneous; [assumption|].
    intros x Hx. pose proof (distribution_range s x Hx) as R.
    unfold spec_impurity in Z.
    destruct (String.eqb criterion "entropy").
    + rewrite spec_entropy_terms in Z.
      assert (T : - (x * log2 x) = 0).
      { apply (np_sum_zero _) with (x := - (x * log2 x)) in Z; auto.
        - intros y Hy. apply in_map_iff in Hy. destruct Hy as [x' [<- Hx']].
          pose proof (distribution_range s x' Hx') as R'.
          pose proof (log2_nonpos x' R'). nra.
        - apply in_map_iff. now exists x. }
      apply log2_zero; [lra|]. nra.
    + rewrite spec_gini_terms in Z by now apply distribution_total.
      assert (T : x * (1 - x) = 0).
      { apply (np_sum_zero _) with (x := x * (1 - x)) in Z; auto.
        - intros y Hy. apply in_map_iff in Hy. destruct Hy as [x' [<- Hx']].
          pose proof (distribution_range s x' Hx') as R'. nra.
        - apply in_map_iff. now exists x. }
      nra.
  - intros H. unfold spec_impurity.
    rewrite (homogeneous_distribution s Hs H).
    unfold spec_entropy, spec_gini. simpl. rewrite log2_1.
    destruct (String.eqb criterion "entropy"); lra.
Qed.

(** ** Splitting on the target itself *)

Lemma np_mul_zeros (a b : list R) :
  (forall x, In x a -> x = 0) -> np_sum (np_mul a b) = 0.
Proof.
  unfold np_mul. revert b.
  induction a as [|x a IH]; intros b H; [reflexivity|].
  destruct b as [|y b]; [reflexivity|]. simpl.
  fold (np_sum (map (fun xy => fst xy * snd xy) (combine a b))).
  rewrite IH by (intros; apply H; now right).
  rewrite (H x) by now left. lra.
Qed.

Lemma level_partition_nonempty (df : DataFrame) (j : nat) (level : value) :
  In level (levels df j) -> spec_partition df j level <> [].
Proof.
  unfold levels, spec_partition. intros H.
  apply (proj1 (unique_In _ _)) in H. apply in_map_iff in H.
  destruct H as [r [E Hr]].
  assert (F : In r (filter (fun r => value_eqb (cell j r) level) (rows df))).
  { apply filter_In. split; [assumption|]. now apply value_eqb_eq. }
  intros N. rewrite N in F. contradiction.
Qed.

(** Within the partition of a level, the column that defines the levels
    holds that level only. *)
Lemma own_partition_homogeneous (df : DataFrame) (i : nat) (level : value) :
  homogeneous (partition_targets df i i level).
Proof.
  assert (A : forall v, In v (partition_targets df i i level) -> v = level).
  { unfold partition_targets, spec_partition. intros v Hv.
    apply in_map_iff in Hv. destruct Hv as [r [<- Hr]].
    apply filter_In in Hr. now apply value_eqb_eq. }
  intros v w Hv Hw. rewrite (A v Hv), (A w Hw). reflexivity.
Qed.

(** C10. With the descriptive attribute equal to the target attribute (a
    column of the frame, criterion supported) the call raises nothing:
    every partition is homogeneous in the target and [compute_impurity]
    returns 0 for it, the list of partition impurities printed holds 0 for
    every level, the remaining impurity printed is 0, and the gain, printed
    and returned, is what [compute_impurity] returns for the target column,
    its impurity rounded to 3 decimals. *)
Theorem gain_on_target_itself
  (df : DataFrame) (target criterion : string) (i : nat) :
  index_of target (columns df) = Some i ->
  supported criterion ->
  exists T wl,
    compute_impurity (map (cell i) (rows df)) criterion = Returns T
    /\ nearest3 (spec_impurity (map (cell i) (rows df)) criterion) T
    /\ run (comp_feature_information_gain df target target criterion)
       = (Returns T,
          [ [PStr "target feature:"; PStr target];
            [PStr "descriptive_feature:"; PStr target];
            [PStr "split criterion:"; PStr criterion];
            [PStr "impurity of partitions:";
             PList (map (fun _ => 0) (unique (map (cell i) (rows df))))];
            [PStr "weights of partitions:"; PList wl];
            [PStr "remaining impurity:"; PFloat 0];
            [PStr "information gain:"; PFloat T];
            [PStr "===================="] ])
    /\ (forall level, In level (unique (map (cell i) (rows df))) ->
          homogeneous (partition_targets df i i level)
          /\ compute_impurity (partition_targets df i i level) criterion
             = Returns 0).
Proof.
  intros Hi Hc.
  assert (Z0 : forall level, In level (levels df i) ->
                 round (spec_impurity (partition_targets df i i level) criterion) 3
                 = 0).
  { intros level Hl.
    assert (E : spec_impurity (partition_targets df i i level) criterion = 0).
    { apply spec_impurity_zero; [|apply own_partition_homogeneous].
      unfold partition_targets. intros N. apply map_eq_nil in N.
      now apply (level_partition_nonempty df i level Hl). }
    rewrite E. apply round3_0. }
  assert (I0 : partition_impurities df i i criterion
               = map (fun _ => 0) (levels df i)).
  { unfold partition_impurities. apply map_ext_in. exact Z0. }
  assert (R0 : remaining_impurity df i i criterion = 0).
  { unfold remaining_impurity. apply np_mul_zeros.
    rewrite I0. intros x Hx. apply in_map_iff in Hx. now destruct Hx as [_ [<- _]]. }
  exists (target_impurity df i criterion), (partition_weights df i).
  split; [apply (compute_impurity_spec _ _ Hc)|].
  split; [apply round3_nearest|]. split.
  - unfold run. rewrite (call_run df target target criterion i i Hi Hi Hc).
    cbn [app]. unfold gain_log, information_gain. rewrite I0, R0.
    replace (target_impurity df i criterion - 0)
      with (target_impurity df i criterion) by lra.
    reflexivity.
  - intros level Hl. split; [apply own_partition_homogeneous|].
    rewrite (compute_impurity_spec _ _ Hc). f_equal. now apply Z0.
Qed.

Lemma gain_on_target_itself_witness :
  index_of "vegetation" (columns vegetation_df) = Some 3%nat
  /\ supported "entropy"
  /\ exists T wl,
       compute_impurity (map (cell 3) (rows vegetation_df)) "entropy" = Returns T
       /\ nearest3 (spec_impurity (map (cell 3) (rows vegetation_df)) "entropy") T
       /\ run (comp_feature_information_gain vegetation_df "vegetation"
                 "vegetation" "entropy")
          = (Returns T,
             [ [PStr "target feature:"; PStr "vegetation"];
               [PStr "descriptive_feature:"; PStr "vegetation"];
               [PStr "split criterion:"; PStr "entropy"];
               [PStr "impurity of partitions:";
                PList (map (fun _ => 0)
                           (unique (map (cell 3) (rows vegetation_df))))];
               [PStr "weights of partitions:"; PList wl];
               [PStr "remaining impurity:"; PFloat 0];
               [PStr "information gain:"; PFloat T];
               [PStr "===================="] ])
       /\ (forall level, In level (unique (map (cell 3) (rows vegetation_df))) ->
             homogeneous (partition_targets vegetation_df 3 3 level)
             /\ compute_impurity (partition_targets vegetation_df 3 3 level)
                  "entropy"
                = Returns 0).
Proof.
  assert (Hi : index_of "vegetation" (columns vegetation_df) = Some 3%nat)
    by reflexivity.
  assert (Hc : supported "entropy") by (now left).
  split; [exact Hi|]. split; [exact Hc|].
  exact (gain_on_target_itself vegetation_df "vegetation" "entropy" 3 Hi Hc).
Defined.

(** ** Base-2 logarithms of small integers *)

Lemma ln_IZR_pow (z e : Z) :
  (0 < z)%Z -> (0 <= e)%Z -> ln (IZR (z ^ e)) = IZR e * ln (IZR z).
Proof.
  intros Hz He.
  rewrite <- (Z2Nat.id e He) at 1.
  rewrite <- pow_IZR, ln_pow by now apply IZR_lt.
  now rewrite INR_IZR_INZ, Z2Nat.id.
Qed.

Lemma log2_lower (x p q : Z) :
  (0 < x)%Z -> (0 <= p)%Z -> (0 < q)%Z ->
  (2 ^ p < x ^ q)%Z ->
  IZR p / IZR q < log2 (IZR x).
Proof.
  intros Hx Hp Hq H.
  assert (L : ln (IZR (2 ^ p)) < ln (IZR (x ^ q))).
  { apply ln_increasing; [|now apply IZR_lt].
    apply IZR_lt. apply Z.pow_pos_nonneg; lia. }
  rewrite !ln_IZR_pow in L by lia.
  pose proof ln_2_pos as L2. pose proof (IZR_lt _ _ Hq) as Q.
  unfold log2.
  apply Rmult_lt_reg_r with (IZR q * ln 2); [nra|].
  field_simplify; lra.
Qed.

Lemma log2_upper (x p q : Z) :
  (0 < x)%Z -> (0 <= p)%Z -> (0 < q)%Z ->
  (x ^ q < 2 ^ p)%Z ->
  log2 (IZR x) < IZR p / IZR q.
Proof.
  intros Hx Hp Hq H.
  assert (L : ln (IZR (x ^ q)) < ln (IZR (2 ^ p))).
  { apply ln_increasing; [|now apply IZR_lt].
    apply IZR_lt. apply Z.pow_pos_nonneg; lia. }
  rewrite !ln_IZR_pow in L by lia.
  pose proof ln_2_pos as L2. pose proof (IZR_lt _ _ Hq) as Q.
  unfold log2.
  apply Rmult_lt_reg_r with (IZR q * ln 2); [nra|].
  field_simplify; lra.
Qed.

Lemma log2_div (a b : R) : 0 < a -> 0 < b -> log2 (a / b) = log2 a - log2 b.
Proof.
  intros Ha Hb. unfold log2. change (a / b) with (a * / b).
  rewrite ln_mult, ln_Rinv; try assumption; [|now apply Rinv_0_lt_compat].
  pose proof ln_2_pos. field. lra.
Qed.

Lemma log2_2 : log2 2 = 1.
Proof. unfold log2. pose proof ln_2_pos. field. lra. Qed.

Lemma log2_4 : log2 4 = 2.
Proof.
  unfold log2. replace 4 with (2 * 2) by lra.
  rewrite ln_mult by lra. pose proof ln_2_pos. field. lra.
Qed.

(** [84/53 < log2 3 < 485/306] *)
Lemma log2_3_bounds : 84 / 53 < log2 3 < 485 / 306.
Proof.
  split.
  - apply (log2_lower 3 84 53); [lia|lia|lia|]. vm_compute. reflexivity.
  - apply (log2_upper 3 485 306); [lia|lia|lia|]. vm_compute. reflexivity.
Qed.

(** [339/146 < log2 5 < 1493/643] *)
Lemma log2_5_bounds : 339 / 146 < log2 5 < 1493 / 643.
Proof.
  split.
  - apply (log2_lower 5 339 146); [lia|lia|lia|]. vm_compute. reflexivity.
  - apply (log2_upper 5 1493 643); [lia|lia|lia|]. vm_compute. reflexivity.
Qed.

(** [306/109 < log2 7 < 1603/571] *)
Lemma log2_7_bounds : 306 / 109 < log2 7 < 1603 / 571.
Proof.
  split.
  - apply (log2_lower 7 306 109); [lia|lia|lia|]. vm_compute. reflexivity.
  - apply (log2_upper 7 1603 571); [lia|lia|lia|]. vm_compute. reflexivity.
Qed.

(** ** Zero impurity *)
















(** ** Entropies of the distributions of the vegetation data *)

Ltac expand_entropy :=
  unfold spec_entropy; cbn [map np_sum fold_right];
  rewrite ?log2_div by lra;
  rewrite ?log2_1, ?log2_2, ?log2_4.

Lemma entropy_3_2_2 : round (spec_entropy [3 / 7; 2 / 7; 2 / 7]) 3 = 1557 / 1000.
Proof.
  apply round3_near. expand_entropy.
  pose proof log2_3_bounds. pose proof log2_7_bounds. lra.
Qed.

Lemma entropy_2_1 : round (spec_entropy [2 / 3; 1 / 3]) 3 = 918 / 1000.
Proof.
  apply round3_near. expand_entropy.
  pose proof log2_3_bounds. lra.
Qed.

Lemma entropy_3_1_1 : round (spec_entropy [3 / 5; 1 / 5; 1 / 5]) 3 = 1371 / 1000.
Proof.
  apply round3_near. expand_entropy.
  pose proof log2_3_bounds. pose proof log2_5_bounds. lra.
Qed.

Lemma entropy_2_1_1 : round (spec_entropy [2 / 4; 1 / 4; 1 / 4]) 3 = 1500 / 1000.
Proof. apply round3_near. expand_entropy. lra. Qed.

Lemma entropy_1_1 : round (spec_entropy [1 / 2; 1 / 2]) 3 = 1.
Proof.
  replace 1 with (1000 / 1000) at 3 by lra.
  apply round3_near. expand_entropy. lra.
Qed.

Lemma entropy_1 : round (spec_entropy [1 / 1]) 3 = 0.
Proof.
  replace (1 / 1) with 1 by lra. apply round3_zero.
  unfold spec_entropy. simpl. rewrite log2_1. lra.
Qed.

(** ** The vegetation example, criterion 'entropy' *)

Lemma vegetation_target_impurity :
  target_impurity vegetation_df 3 "entropy" = 1557 / 1000.
Proof.
  unfold target_impurity. crunch_data. cbn [map cell nth veg_row].
  distribution. apply entropy_3_2_2.
Qed.

Lemma weight_1_7 : round (1 / 7) 3 = 143 / 1000.
Proof. apply round3_near. lra. Qed.

Lemma weight_2_7 : round (2 / 7) 3 = 286 / 1000.
Proof. apply round3_near. lra. Qed.

Lemma weight_3_7 : round (3 / 7) 3 = 429 / 1000.
Proof. apply round3_near. lra. Qed.

Lemma weight_4_7 : round (4 / 7) 3 = 571 / 1000.
Proof. apply round3_near. lra. Qed.

Lemma weight_5_7 : round (5 / 7) 3 = 714 / 1000.
Proof. apply round3_near. lra. Qed.

Ltac vegetation_lists :=
  unfold partition_impurities, partition_weights, spec_weight;
  crunch_data; cbn [map]; distribution;
  rewrite ?entropy_3_2_2, ?entropy_2_1, ?entropy_3_1_1, ?entropy_2_1_1,
    ?entropy_1_1, ?entropy_1,
    ?weight_1_7, ?weight_2_7, ?weight_3_7, ?weight_4_7, ?weight_5_7.

(** The two lists the notebook prints for 'elevation':
    [0.918, -0.0, 1.0, -0.0] and [0.429, 0.143, 0.286, 0.143]. *)
Lemma elevation_lists :
  partition_impurities vegetation_df 3 2 "entropy" = [918 / 1000; 0; 1; 0]
  /\ partition_weights vegetation_df 2
     = [429 / 1000; 143 / 1000; 286 / 1000; 143 / 1000].
Proof. split; vegetation_lists; reflexivity. Qed.

(** For 'stream': [0.918, 1.5] and [0.429, 0.571]. *)
Lemma stream_lists :
  partition_impurities vegetation_df 3 0 "entropy" = [918 / 1000; 1500 / 1000]
  /\ partition_weights vegetation_df 0 = [429 / 1000; 571 / 1000].
Proof. split; vegetation_lists; reflexivity. Qed.

(** For 'slope': [1.371, -0.0, -0.0] and [0.714, 0.143, 0.143]. *)
Lemma slope_lists :
  partition_impurities vegetation_df 3 1 "entropy" = [1371 / 1000; 0; 0]
  /\ partition_weights vegetation_df 1 = [714 / 1000; 143 / 1000; 143 / 1000].
Proof. split; vegetation_lists; reflexivity. Qed.

Lemma elevation_remaining :
  remaining_impurity vegetation_df 3 2 "entropy" = 679822 / 1000000.
Proof.
  unfold remaining_impurity. destruct elevation_lists as [-> ->].
  unfold np_mul. simpl. lra.
Qed.

Lemma stream_remaining :
  remaining_impurity vegetation_df 3 0 "entropy" = 1250322 / 1000000.
Proof.
  unfold remaining_impurity. destruct stream_lists as [-> ->].
  unfold np_mul. simpl. lra.
Qed.

Lemma slope_remaining :
  remaining_impurity vegetation_df 3 1 "entropy" = 978894 / 1000000.
Proof.
  unfold remaining_impurity. destruct slope_lists as [-> ->].
  unfold np_mul. simpl. lra.
Qed.

Lemma vegetation_call (descriptive_feature : string) (j : nat) :
  index_of descriptive_feature (columns vegetation_df) = Some j ->
  fst (run (comp_feature_information_gain vegetation_df "vegetation"
              descriptive_feature "entropy"))
  = Returns (1557 / 1000 - remaining_impurity vegetation_df 3 j "entropy").
Proof.
  intros Hj. unfold run.
  rewrite (call_run vegetation_df "vegetation" descriptive_feature "entropy" 3 j
             eq_refl Hj (or_introl eq_refl)).
  simpl fst. unfold information_gain. now rewrite vegetation_target_impurity.
Qed.

(** C3 (as stated, refuted). For 'elevation' the call returns 0.877178 and
    prints the remaining impurity 0.679822; neither agrees to three
    decimals with the stated 0.878 and 0.679. *)
Lemma elevation_figures_differ :
  fst (run (comp_feature_information_gain vegetation_df "vegetation"
              "elevation" "entropy"))
  = Returns (877178 / 1000000)
  /\ ~ agrees3 (877178 / 1000000) (878 / 1000)
  /\ remaining_impurity vegetation_df 3 2 "entropy" = 679822 / 1000000
  /\ ~ agrees3 (679822 / 1000000) (679 / 1000).
Proof.
  split; [|split; [|split]].
  - rewrite (vegetation_call "elevation" 2 eq_refl), elevation_remaining.
    f_equal. lra.
  - unfold agrees3. lra.
  - apply elevation_remaining.
  - unfold agrees3. lra.
Qed.

(** C3 (amended). On the 7-row vegetation data with target 'vegetation' and
    criterion 'entropy': the target impurity is 1.557; for 'elevation' the
    remaining impurity is 0.679822 (0.680 to three decimals) and the gain
    0.877178 (0.877); the gain is 0.306678 (0.307) for 'stream' and
    0.578106 (0.578) for 'slope'; 'elevation' has the highest gain. *)
Theorem vegetation_entropy_gains :
  compute_impurity (map (cell 3) (rows vegetation_df)) "entropy"
    = Returns (1557 / 1000)
  /\ fst (run (comp_feature_information_gain vegetation_df "vegetation"
                 "elevation" "entropy"))
     = Returns (877178 / 1000000)
  /\ In [PStr "remaining impurity:"; PFloat (679822 / 1000000)]
        (snd (run (comp_feature_information_gain vegetation_df "vegetation"
                     "elevation" "entropy")))
  /\ fst (run (comp_feature_information_gain vegetation_df "vegetation"
                 "stream" "entropy"))
     = Returns (306678 / 1000000)
  /\ fst (run (comp_feature_information_gain vegetation_df "vegetation"
                 "slope" "entropy"))
     = Returns (578106 / 1000000)
  /\ agrees3 (679822 / 1000000) (680 / 1000)
  /\ agrees3 (877178 / 1000000) (877 / 1000)
  /\ agrees3 (306678 / 1000000) (307 / 1000)
  /\ agrees3 (578106 / 1000000) (578 / 1000)
  /\ 306678 / 1000000 < 578106 / 1000000 < 877178 / 1000000.
Proof.
  repeat match goal with |- _ /\ _ => split end;
    try (unfold agrees3; lra).
  - rewrite (compute_impurity_spec _ "entropy") by now left.
    f_equal. apply vegetation_target_impurity.
  - rewrite (vegetation_call "elevation" 2 eq_refl), elevation_remaining.
    f_equal. lra.
  - unfold run.
    rewrite (call_run vegetation_df "vegetation" "elevation" "entropy" 3 2
               eq_refl eq_refl (or_introl eq_refl)).
    cbn [snd app]. unfold gain_log. rewrite elevation_remaining.
    do 5 right. now left.
  - rewrite (vegetation_call "stream" 0 eq_refl), stream_remaining.
    f_equal. lra.
  - rewrite (vegetation_call "slope" 1 eq_refl), slope_remaining.
    f_equal. lra.
Qed.

(** ** The weighted sum *)

Lemma impurity_value_spec (s : Series) (criterion : string) :
  supported criterion ->
  impurity_value s criterion = round (spec_impurity s criterion) 3.
Proof.
  intros Hc. unfold impurity_value. now rewrite (compute_impurity_spec s criterion Hc).
Qed.

Lemma np_mul_map {A} (f g : A -> R) (l : list A) :
  np_mul (map f l) (map g l) = map (fun x => f x * g x) l.
Proof.
  unfold np_mul. induction l as [|x l IH]; simpl; [reflexivity|]. now rewrite IH.
Qed.

(** The remaining impurity is the sum over the levels of the rounded
    partition impurity times the rounded weight. *)
Lemma remaining_impurity_sum (df : DataFrame) (i j : nat) (criterion : string) :
  remaining_impurity df i j criterion
  = np_sum (map (fun level =>
                   round (spec_impurity (partition_targets df i j level) criterion) 3
                   * round (spec_weight df j level) 3)
                (levels df j)).
Proof.
  unfold remaining_impurity, partition_impurities, partition_weights.
  now rewrite np_mul_map.
Qed.

Lemma gini_2_1 : round (spec_gini [2 / 3; 1 / 3]) 3 = 444 / 1000.
Proof. apply round3_near. unfold spec_gini. simpl. lra. Qed.

Lemma gini_1_1 : round (spec_gini [1 / 2; 1 / 2]) 3 = 500 / 1000.
Proof. apply round3_near. unfold spec_gini. simpl. lra. Qed.

Lemma gini_1 : round (spec_gini [1 / 1]) 3 = 0.
Proof. apply round3_zero. unfold spec_gini. simpl. lra. Qed.

Lemma gini_2 : round (spec_gini [2 / 2]) 3 = 0.
Proof. apply round3_zero. unfold spec_gini. simpl. lra. Qed.

Lemma weight_1_3 : round (1 / 3) 3 = 333 / 1000.
Proof. apply round3_near. lra. Qed.

Lemma weight_2_3 : round (2 / 3) 3 = 667 / 1000.
Proof. apply round3_near. lra. Qed.

Lemma weight_2_2 : round (2 / 2) 3 = 1.
Proof. replace (2 / 2) with 1 by lra. apply round3_1. Qed.

Ltac small_lists :=
  unfold partition_impurities, partition_weights, spec_weight;
  crunch_data; cbn [map]; distribution;
  rewrite ?gini_2_1, ?gini_1_1, ?gini_1, ?gini_2,
    ?weight_1_3, ?weight_2_3, ?weight_2_2.

Lemma small_df_target : target_impurity small_df 1 "gini" = 444 / 1000.
Proof.
  unfold target_impurity. crunch_data. cbn [map cell nth].
  distribution. apply gini_2_1.
Qed.

Lemma small_df_lists :
  partition_impurities small_df 1 0 "gini" = [500 / 1000; 0]
  /\ partition_weights small_df 0 = [667 / 1000; 333 / 1000].
Proof. split; small_lists; reflexivity. Qed.

(** On [small_df] the call returns 0.444 - 0.5 * 0.667 = 0.1105. *)
Lemma small_df_gain : information_gain small_df 1 0 "gini" = 1105 / 10000.
Proof.
  unfold information_gain, remaining_impurity.
  rewrite small_df_target. destruct small_df_lists as [-> ->].
  unfold np_mul. simpl. lra.
Qed.

(** With the exact weights 2/3 and 1/3 the figure would be
    0.444 - 0.5 * 2/3. *)
Lemma small_df_exact_weights :
  impurity_value (map (cell 1) (rows small_df)) "gini"
  - spec_remaining_impurity small_df 1 0 "gini"
  = 444 / 1000 - 1 / 3.
Proof.
  unfold spec_remaining_impurity.
  rewrite impurity_value_spec by now right.
  fold (target_impurity small_df 1 "gini"). rewrite small_df_target.
  crunch_data. cbn [map].
  rewrite !impurity_value_spec by now right.
  unfold spec_weight. distribution.
  rewrite gini_1_1, gini_1. simpl. lra.
Qed.

Lemma small_df_call :
  run (comp_feature_information_gain small_df "label" "feature" "gini")
  = (Returns (information_gain small_df 1 0 "gini"),
     gain_log small_df "label" "feature" "gini" 1 0).
Proof.
  unfold run.
  now rewrite (call_run small_df "label" "feature" "gini" 1 0
                 eq_refl eq_refl (or_intror eq_refl)).
Qed.

(** C2 (as stated, refuted). On a three-row frame the returned gain is
    0.1105, not the target impurity minus the sum of partition impurity
    times [|partition| / |dataset|], which is 0.444 - 1/3. *)
Lemma exact_weights_refuted :
  rows small_df <> []
  /\ fst (run (comp_feature_information_gain small_df "label" "feature" "gini"))
     <> Returns (impurity_value (map (cell 1) (rows small_df)) "gini"
                 - spec_remaining_impurity small_df 1 0 "gini").
Proof.
  split; [discriminate|].
  rewrite small_df_call, small_df_exact_weights. simpl fst.
  rewrite small_df_gain. intros H. injection H as H. lra.
Qed.

(** C2 (amended). For a non-empty dataset, target and descriptive
    attributes that are columns of it and differ, and a supported criterion:
    the remaining impurity the call prints is the sum over the distinct
    levels of the descriptive attribute of (the impurity [compute_impurity]
    returns for the target values of the level's partition) times the
    weight [|partition| / |dataset|] rounded to 3 decimal places (a
    3-decimal number nearest to the quotient), and the returned gain is the
    target impurity minus that sum, the target impurity being what
    [compute_impurity] returns for the whole target column. *)
Theorem gain_weighted_sum
  (df : DataFrame) (target descriptive_feature criterion : string) (i j : nat) :
  rows df <> [] ->
  index_of target (columns df) = Some i ->
  index_of descriptive_feature (columns df) = Some j ->
  target <> descriptive_feature ->
  supported criterion ->
  exists T el wl,
    compute_impurity (map (cell i) (rows df)) criterion = Returns T
    /\ Forall2 (fun level e =>
                  compute_impurity (partition_targets df i j level) criterion
                  = Returns e)
               (levels df j) el
    /\ Forall2 (fun level w =>
                  nearest3 (IZR (len (spec_partition df j level))
                            / IZR (len (rows df))) w)
               (levels df j) wl
    /\ In [PStr "remaining impurity:"; PFloat (np_sum (np_mul el wl))]
          (snd (run (comp_feature_information_gain df target descriptive_feature
                       criterion)))
    /\ fst (run (comp_feature_information_gain df target descriptive_feature
                   criterion))
       = Returns (T - np_sum (np_mul el wl)).
Proof.
  intros _ Hi Hj _ Hc.
  destruct (call_parts df target descriptive_feature criterion i j Hi Hj Hc)
    as [T [el [wl [HT [_ [Hel [Hwl Hrun]]]]]]].
  exists T, el, wl. rewrite Hrun.
  split; [exact HT|]. split; [|split; [|split]].
  - eapply Forall2_impl; [|exact Hel]. now intros level e [H _].
  - exact Hwl.
  - cbn [snd]. do 5 right. now left.
  - reflexivity.
Qed.

Lemma gain_weighted_sum_witness :
  rows small_df <> []
  /\ index_of "label" (columns small_df) = Some 1%nat
  /\ index_of "feature" (columns small_df) = Some 0%nat
  /\ "label"%string <> "feature"%string
  /\ supported "gini"
  /\ exists T el wl,
       compute_impurity (map (cell 1) (rows small_df)) "gini" = Returns T
       /\ Forall2 (fun level e =>
                     compute_impurity (partition_targets small_df 1 0 level) "gini"
                     = Returns e)
                  (levels small_df 0) el
       /\ Forall2 (fun level w =>
                     nearest3 (IZR (len (spec_partition small_df 0 level))
                               / IZR (len (rows small_df))) w)
                  (levels small_df 0) wl
       /\ In [PStr "remaining impurity:"; PFloat (np_sum (np_mul el wl))]
             (snd (run (comp_feature_information_gain small_df "label" "feature"
                          "gini")))
       /\ fst (run (comp_feature_information_gain small_df "label" "feature"
                      "gini"))
          = Returns (T - np_sum (np_mul el wl)).
Proof.
  assert (Hr : rows small_df <> []) by discriminate.
  assert (Hi : index_of "label" (columns small_df) = Some 1%nat) by reflexivity.
  assert (Hj : index_of "feature" (columns small_df) = Some 0%nat) by reflexivity.
  assert (Hn : "label"%string <> "feature"%string) by discriminate.
  assert (Hc : supported "gini") by (now right).
  split; [exact Hr|]. split; [exact Hi|]. split; [exact Hj|].
  split; [exact Hn|]. split; [exact Hc|].
  exact (gain_weighted_sum small_df "label" "feature" "gini" 1 0 Hr Hi Hj Hn Hc).
Defined.

(** ** Where the rounding happens *)

(** C9. For a non-empty dataset, attributes that are columns of it and a
    supported criterion, the returned gain is [round(target impurity, 3)]
    minus the sum over the levels of [round(partition impurity, 3)] times
    [round(|partition| / |dataset|, 3)], the impurities being the values
    before rounding: the target impurity, every partition impurity and
    every weight is brought to a nearest 3-decimal number before the
    weighted sum (these are the two lists the call prints), and nothing
    rounds the difference. *)
Theorem gain_rounding
  (df : DataFrame) (target descriptive_feature criterion : string) (i j : nat) :
  rows df <> [] ->
  index_of target (columns df) = Some i ->
  index_of descriptive_feature (columns df) = Some j ->
  supported criterion ->
  exists T el wl,
    nearest3 (spec_impurity (map (cell i) (rows df)) criterion) T
    /\ Forall2 (fun level e =>
                  nearest3 (spec_impurity (partition_targets df i j level)
                              criterion) e)
               (levels df j) el
    /\ Forall2 (fun level w =>
                  nearest3 (IZR (len (spec_partition df j level))
                            / IZR (len (rows df))) w)
               (levels df j) wl
    /\ In [PStr "impurity of partitions:"; PList el]
          (snd (run (comp_feature_information_gain df target descriptive_feature
                       criterion)))
    /\ In [PStr "weights of partitions:"; PList wl]
          (snd (run (comp_feature_information_gain df target descriptive_feature
                       criterion)))
    /\ fst (run (comp_feature_information_gain df target descriptive_feature
                   criterion))
       = Returns (T - np_sum (np_mul el wl)).
Proof.
  intros _ Hi Hj Hc.
  destruct (call_parts df target descriptive_feature criterion i j Hi Hj Hc)
    as [T [el [wl [_ [HT [Hel [Hwl Hrun]]]]]]].
  exists T, el, wl. rewrite Hrun.
  split; [exact HT|]. split; [|split; [|split; [|split]]].
  - eapply Forall2_impl; [|exact Hel]. now intros level e [_ H].
  - exact Hwl.
  - cbn [snd]. do 3 right. now left.
  - cbn [snd]. do 4 right. now left.
  - reflexivity.
Qed.

Lemma gain_rounding_witness :
  rows small_df <> []
  /\ index_of "label" (columns small_df) = Some 1%nat
  /\ index_of "feature" (columns small_df) = Some 0%nat
  /\ supported "gini"
  /\ exists T el wl,
       nearest3 (spec_impurity (map (cell 1) (rows small_df)) "gini") T
       /\ Forall2 (fun level e =>
                     nearest3 (spec_impurity (partition_targets small_df 1 0 level)
                                 "gini") e)
                  (levels small_df 0) el
       /\ Forall2 (fun level w =>
                     nearest3 (IZR (len (spec_partition small_df 0 level))
                               / IZR (len (rows small_df))) w)
                  (levels small_df 0) wl
       /\ In [PStr "impurity of partitions:"; PList el]
             (snd (run (comp_feature_information_gain small_df "label" "feature"
                          "gini")))
       /\ In [PStr "weights of partitions:"; PList wl]
             (snd (run (comp_feature_information_gain small_df "label" "feature"
                          "gini")))
       /\ fst (run (comp_feature_information_gain small_df "label" "feature"
                      "gini"))
          = Returns (T - np_sum (np_mul el wl)).
Proof.
  assert (Hr : rows small_df <> []) by discriminate.
  assert (Hi : index_of "label" (columns small_df) = Some 1%nat) by reflexivity.
  assert (Hj : index_of "feature" (columns small_df) = Some 0%nat) by reflexivity.
  assert (Hc : supported "gini") by (now right).
  split; [exact Hr|]. split; [exact Hi|]. split; [exact Hj|]. split; [exact Hc|].
  exact (gain_rounding small_df "label" "feature" "gini" 1 0 Hr Hi Hj Hc).
Defined.

(** The gain is handed back as computed: on [small_df] it is 0.1105, which
    [round(., 3)] would change. *)
Lemma gain_not_rounded :
  fst (run (comp_feature_information_gain small_df "label" "feature" "gini"))
  = Returns (1105 / 10000)
  /\ round (1105 / 10000) 3 <> 1105 / 10000.
Proof.
  split.
  - rewrite small_df_call. simpl fst. now rewrite small_df_gain.
  - rewrite round3_unfold. intros H.
    assert (E : IZR (10 * round_half_even (1105 / 10000 * 1000)) = IZR 1105).
    { rewrite mult_IZR. lra. }
    apply eq_IZR in E. lia.
Qed.

(** ** What the caller gets *)

Lemma pure_df_gain : information_gain pure_df 1 0 "gini" = 0.
Proof.
  unfold information_gain, remaining_impurity, target_impurity.
  crunch_data. cbn [map cell nth]. small_lists.
  unfold np_mul. simpl. lra.
Qed.

Lemma mixed_df_gain : information_gain mixed_df 1 0 "gini" = 0.
Proof.
  unfold information_gain, remaining_impurity, target_impurity.
  crunch_data. cbn [map cell nth]. small_lists.
  unfold np_mul. simpl. lra.
Qed.

Lemma pure_df_target :
  compute_impurity (map (cell 1) (rows pure_df)) "gini" = Returns 0.
Proof.
  rewrite (compute_impurity_spec _ "gini") by now right.
  f_equal. crunch_data. cbn [map cell nth]. distribution. apply gini_2.
Qed.

Lemma mixed_df_target :
  compute_impurity (map (cell 1) (rows mixed_df)) "gini" = Returns (500 / 1000).
Proof.
  rewrite (compute_impurity_spec _ "gini") by now right.
  f_equal. crunch_data. cbn [map cell nth]. distribution. apply gini_1_1.
Qed.

(** C7 (as stated, refuted). Two valid calls return the same result, 0,
    while their target impurities are 0 and 0.5: the returned result does
    not hold the target impurity (nor the remaining impurity, which is 0
    and 0.5 as well). *)
Lemma result_hides_target_impurity :
  fst (run (comp_feature_information_gain pure_df "label" "feature" "gini"))
  = fst (run (comp_feature_information_gain mixed_df "label" "feature" "gini"))
  /\ compute_impurity (map (cell 1) (rows pure_df)) "gini"
     <> compute_impurity (map (cell 1) (rows mixed_df)) "gini".
Proof.
  split.
  - unfold run.
    rewrite (call_run pure_df "label" "feature" "gini" 1 0
               eq_refl eq_refl (or_intror eq_refl)).
    rewrite (call_run mixed_df "label" "feature" "gini" 1 0
               eq_refl eq_refl (or_intror eq_refl)).
    simpl fst. now rewrite pure_df_gain, mixed_df_gain.
  - rewrite pure_df_target, mixed_df_target. intros H. injection H as H. lra.
Qed.

(** C7 (amended). For every valid input the call returns the final gain
    alone, a single number equal to the target impurity minus the remaining
    impurity; the per-level partition impurities and weights (in order of
    first appearance of the levels, one entry per level: what
    [compute_impurity] returns for the partition, and the weight rounded to
    3 decimals), the remaining impurity and the gain are printed, and the
    target impurity is neither returned nor printed. *)
Theorem call_returns_gain_and_prints
  (df : DataFrame) (target descriptive_feature criterion : string) (i j : nat) :
  rows df <> [] ->
  index_of target (columns df) = Some i ->
  index_of descriptive_feature (columns df) = Some j ->
  supported criterion ->
  exists T el wl,
    compute_impurity (map (cell i) (rows df)) criterion = Returns T
    /\ Forall2 (fun level e =>
                  compute_impurity (partition_targets df i j level) criterion
                  = Returns e)
               (levels df j) el
    /\ Forall2 (fun level w => nearest3 (spec_weight df j level) w)
               (levels df j) wl
    /\ run (comp_feature_information_gain df target descriptive_feature criterion)
       = (Returns (T - np_sum (np_mul el wl)),
          [ [PStr "target feature:"; PStr target];
            [PStr "descriptive_feature:"; PStr descriptive_feature];
            [PStr "split criterion:"; PStr criterion];
            [PStr "impurity of partitions:"; PList el];
            [PStr "weights of partitions:"; PList wl];
            [PStr "remaining impurity:"; PFloat (np_sum (np_mul el wl))];
            [PStr "information gain:"; PFloat (T - np_sum (np_mul el wl))];
            [PStr "===================="] ]).
Proof.
  intros _ Hi Hj Hc.
  destruct (call_parts df target descriptive_feature criterion i j Hi Hj Hc)
    as [T [el [wl [HT [_ [Hel [Hwl Hrun]]]]]]].
  exists T, el, wl.
  split; [exact HT|]. split; [|split].
  - eapply Forall2_impl; [|exact Hel]. now intros level e [H _].
  - exact Hwl.
  - exact Hrun.
Qed.

Lemma call_returns_gain_and_prints_witness :
  rows mixed_df <> []
  /\ index_of "label" (columns mixed_df) = Some 1%nat
  /\ index_of "feature" (columns mixed_df) = Some 0%nat
  /\ supported "gini"
  /\ exists T el wl,
       compute_impurity (map (cell 1) (rows mixed_df)) "gini" = Returns T
       /\ Forall2 (fun level e =>
                     compute_impurity (partition_targets mixed_df 1 0 level) "gini"
                     = Returns e)
                  (levels mixed_df 0) el
       /\ Forall2 (fun level w => nearest3 (spec_weight mixed_df 0 level) w)
                  (levels mixed_df 0) wl
       /\ run (comp_feature_information_gain mixed_df "label" "feature" "gini")
          = (Returns (T - np_sum (np_mul el wl)),
             [ [PStr "target feature:"; PStr "label"];
               [PStr "descriptive_feature:"; PStr "feature"];
               [PStr "split criterion:"; PStr "gini"];
               [PStr "impurity of partitions:"; PList el];
               [PStr "weights of partitions:"; PList wl];
               [PStr "remaining impurity:"; PFloat (np_sum (np_mul el wl))];
               [PStr "information gain:"; PFloat (T - np_sum (np_mul el wl))];
               [PStr "===================="] ]).
Proof.
  assert (Hr : rows mixed_df <> []) by discriminate.
  assert (Hi : index_of "label" (columns mixed_df) = Some 1%nat) by reflexivity.
  assert (Hj : index_of "feature" (columns mixed_df) = Some 0%nat) by reflexivity.
  assert (Hc : supported "gini") by (now right).
  split; [exact Hr|]. split; [exact Hi|]. split; [exact Hj|]. split; [exact Hc|].
  exact (call_returns_gain_and_prints mixed_df "label" "feature" "gini" 1 0
           Hr Hi Hj Hc).
Defined.

(** ** The model against the output recorded in the notebook *)

(** [fruits.value_counts()]: apple 3, orange 2, banana 2. *)
Example value_counts_fruits :
  value_counts fruits = [(apple, 3%Z); (orange, 2%Z); (banana, 2%Z)].
Proof. reflexivity. Qed.

(** [df['elevation'].value_counts()]: high 3, medium 2, low 1, highest 1
    (decreasing count, ties in order of first appearance). *)
Example value_counts_elevation :
  value_counts (map (cell 2) (rows vegetation_df))
  = [(VStr "high", 3%Z); (VStr "medium", 2%Z); (VStr "low", 1%Z);
     (VStr "highest", 1%Z)].
Proof. reflexivity. Qed.

(** [df['elevation'].unique()]: high, low, medium, highest. *)
Example levels_elevation :
  levels vegetation_df 2 = [VStr "high"; VStr "low"; VStr "medium"; VStr "highest"].
Proof. reflexivity. Qed.

Lemma gini_3_2_2 : round (spec_gini [3 / 7; 2 / 7; 2 / 7]) 3 = 653 / 1000.
Proof. apply round3_near. unfold spec_gini. simpl. lra. Qed.

Lemma gini_2_1_1 : round (spec_gini [2 / 4; 1 / 4; 1 / 4]) 3 = 625 / 1000.
Proof. apply round3_near. unfold spec_gini. simpl. lra. Qed.

Lemma gini_3_1_1 : round (spec_gini [3 / 5; 1 / 5; 1 / 5]) 3 = 560 / 1000.
Proof. apply round3_near. unfold spec_gini. simpl. lra. Qed.

(** [compute_impurity(fruits, 'entropy')] prints 1.557 and
    [compute_impurity(fruits, 'gini')] prints 0.653. *)
Example compute_impurity_fruits :
  compute_impurity fruits "entropy" = Returns (1557 / 1000)
  /\ compute_impurity fruits "gini" = Returns (653 / 1000).
Proof.
  split.
  - rewrite (compute_impurity_spec _ "entropy") by now left.
    f_equal. distribution. apply entropy_3_2_2.
  - rewrite (compute_impurity_spec _ "gini") by now right.
    f_equal. distribution. apply gini_3_2_2.
Qed.

Ltac vegetation_gini :=
  unfold information_gain, remaining_impurity, target_impurity,
    partition_impurities, partition_weights, spec_weight;
  crunch_data; cbn [map cell nth veg_row]; distribution;
  rewrite ?gini_3_2_2, ?gini_2_1, ?gini_2_1_1, ?gini_3_1_1, ?gini_1_1, ?gini_1,
    ?weight_1_7, ?weight_2_7, ?weight_3_7, ?weight_4_7, ?weight_5_7;
  unfold np_mul; simpl; lra.

(** The gains printed under 'gini': 0.105649 for 'stream', 0.25316 for
    'slope', 0.319524 for 'elevation'. *)
Example vegetation_gini_gains :
  information_gain vegetation_df 3 0 "gini" = 105649 / 1000000
  /\ information_gain vegetation_df 3 1 "gini" = 253160 / 1000000
  /\ information_gain vegetation_df 3 2 "gini" = 319524 / 1000000.
Proof. repeat split; vegetation_gini. Qed.

(** All that the call for 'elevation' under 'entropy' prints and
    returns. *)
Example elevation_call :
  run (comp_feature_information_gain vegetation_df "vegetation" "elevation"
         "entropy")
  = (Returns (877178 / 1000000),
     [ [PStr "target feature:"; PStr "vegetation"];
       [PStr "descriptive_feature:"; PStr "elevation"];
       [PStr "split criterion:"; PStr "entropy"];
       [PStr "impurity of partitions:"; PList [918 / 1000; 0; 1; 0]];
       [PStr "weights of partitions:";
        PList [429 / 1000; 143 / 1000; 286 / 1000; 143 / 1000]];
       [PStr "remaining impurity:"; PFloat (679822 / 1000000)];
       [PStr "information gain:"; PFloat (877178 / 1000000)];
       [PStr "===================="] ]).
Proof.
  unfold run.
  rewrite (call_run vegetation_df "vegetation" "elevation" "entropy" 3 2
             eq_refl eq_refl (or_introl eq_refl)).
  cbn [app]. unfold gain_log, information_gain.
  rewrite vegetation_target_impurity, elevation_remaining.
  destruct elevation_lists as [-> ->].
  replace (1557 / 1000 - 679822 / 1000000) with (877178 / 1000000) by lra.
  reflexivity.
Qed.

(** ** Columns *)

Lemma index_of_bound (c : string) (cols : list string) (i : nat) :
  index_of c cols = Some i -> (i < List.length cols)%nat.
Proof.
  revert i. induction cols as [|c' cols IH]; simpl; intros i H; [discriminate|].
  destruct (String.eqb c c').
  - injection H as <-. lia.
  - destruct (index_of c cols) as [k|]; [|discriminate].
    injection H as <-. specialize (IH k eq_refl). lia.
Qed.

(** In a well-formed frame [df[c]] reads a cell of every row: the default
    of [cell] is out of reach. *)
Lemma cell_in_row (df : DataFrame) (c : string) (i : nat) (r : list value) :
  wf_frame df ->
  index_of c (columns df) = Some i ->
  In r (rows df) ->
  In (cell i r) r.
Proof.
  intros W Hi Hr. unfold wf_frame in W. rewrite Forall_forall in W.
  apply nth_In. rewrite (W r Hr). now apply (index_of_bound c).
Qed.

(** A descriptive attribute that is not a column is a [KeyError], raised
    after the target impurity was computed. *)
Lemma missing_descriptive_column
  (df : DataFrame) (target descriptive_feature criterion : string) :
  In target (columns df) ->
  supported criterion ->
  ~ In descriptive_feature (columns df) ->
  fst (run (comp_feature_information_gain df target descriptive_feature criterion))
  = Raises (KeyError descriptive_feature).
Proof.
  intros Ht Hc Hd. destruct (index_of_In _ _ Ht) as [i Hi].
  unfold run, comp_feature_information_gain, bind, print, lift, getitem.
  rewrite Hi, (compute_impurity_spec _ _ Hc), (index_of_absent _ _ Hd).
  reflexivity.
Qed.

(** ** Every way a call can end *)

Lemma criterion_cases (criterion : string) :
  supported criterion
  \/ (criterion <> "entropy"%string /\ criterion <> "gini"%string).
Proof.
  unfold supported.
  destruct (String.eqb_spec criterion "entropy"); [now left; left|].
  destruct (String.eqb_spec criterion "gini"); [now left; right|].
  now right.
Qed.

Lemma compute_impurity_unsupported (s : Series) (criterion : string) :
  criterion <> "entropy"%string ->
  criterion <> "gini"%string ->
  compute_impurity s criterion = Raises (ValueError "Unknown impurity criterion").
Proof.
  intros He Hg. unfold compute_impurity, impurity_of.
  now rewrite (eqb_neq_false _ _ He), (eqb_neq_false _ _ Hg).
Qed.

(** What a call does from any earlier output, by cases on the two column
    lookups and the criterion. *)
Lemma call_cases
  (df : DataFrame) (target descriptive_feature criterion : string)
  (out : list line) :
  let call := comp_feature_information_gain df target descriptive_feature
                criterion out in
  let head := out ++ header target descriptive_feature criterion in
  match index_of target (columns df) with
  | None => call = (Raises (KeyError target), head)
  | Some i =>
      (criterion <> "entropy"%string /\ criterion <> "gini"%string
       /\ call = (Raises (ValueError "Unknown impurity criterion"), head))
      \/ (supported criterion
          /\ match index_of descriptive_feature (columns df) with
             | None => call = (Raises (KeyError descriptive_feature), head)
             | Some j =>
                 call = (Returns (information_gain df i j criterion),
                         out ++ gain_log df target descriptive_feature criterion i j)
             end)
  end.
Proof.
  intros call head. subst call head.
  destruct (index_of target (columns df)) as [i|] eqn:Hi.
  - destruct (criterion_cases criterion) as [Hc|[He Hg]].
    + right. split; [assumption|].
      destruct (index_of descriptive_feature (columns df)) as [j|] eqn:Hj.
      * apply (call_run df target descriptive_feature criterion i j Hi Hj Hc).
      * unfold comp_feature_information_gain, bind, print, lift, getitem, header.
        rewrite Hi, (compute_impurity_spec _ _ Hc), Hj.
        now rewrite <- !app_assoc.
    + left. split; [assumption|]. split; [assumption|].
      unfold comp_feature_information_gain, bind, print, lift, getitem, header.
      rewrite Hi, (compute_impurity_unsupported _ _ He Hg).
      now rewrite <- !app_assoc.
  - unfold comp_feature_information_gain, bind, print, lift, getitem, header.
    rewrite Hi. now rewrite <- !app_assoc.
Qed.

(** X1. A target that is not a column of the frame ends the call with
    [KeyError(target)] once the three header lines are printed, whatever
    the descriptive attribute and the criterion are (an unknown criterion
    is not reported then). *)
Theorem missing_target_raises
  (df : DataFrame) (target descriptive_feature criterion : string) :
  ~ In target (columns df) ->
  run (comp_feature_information_gain df target descriptive_feature criterion)
  = (Raises (KeyError target), header target descriptive_feature criterion).
Proof.
  intros H. unfold run.
  pose proof (call_cases df target descriptive_feature criterion []) as C.
  cbv zeta in C. rewrite (index_of_absent _ _ H) in C. exact C.
Qed.

Lemma missing_target_raises_witness :
  ~ In "soil"%string (columns vegetation_df)
  /\ run (comp_feature_information_gain vegetation_df "soil" "slope" "foo")
     = (Raises (KeyError "soil"), header "soil" "slope" "foo").
Proof.
  assert (H : ~ In "soil"%string (columns vegetation_df)).
  { simpl. intros [H|[H|[H|[H|[]]]]]; discriminate. }
  split; [exact H|].
  exact (missing_target_raises vegetation_df "soil" "slope" "foo" H).
Defined.

(** X2. With the target a column of the frame, a criterion other than
    'entropy' and 'gini' ends the call with the [ValueError] of
    [compute_impurity] after the three header lines, also when the
    descriptive attribute is not a column: the criterion is looked at
    before the descriptive column. *)
Theorem unknown_criterion_raises
  (df : DataFrame) (target descriptive_feature criterion : string) :
  In target (columns df) ->
  criterion <> "entropy"%string ->
  criterion <> "gini"%string ->
  run (comp_feature_information_gain df target descriptive_feature criterion)
  = (Raises (ValueError "Unknown impurity criterion"),
     header target descriptive_feature criterion).
Proof.
  intros Ht He Hg. unfold run.
  destruct (index_of_In _ _ Ht) as [i Hi].
  pose proof (call_cases df target descriptive_feature criterion []) as C.
  cbv zeta in C. rewrite Hi in C.
  destruct C as [[_ [_ C]]|[[Hc|Hc] _]]; [exact C|congruence|congruence].
Qed.

Lemma unknown_criterion_raises_witness :
  In "vegetation"%string (columns vegetation_df)
  /\ "foo"%string <> "entropy"%string
  /\ "foo"%string <> "gini"%string
  /\ run (comp_feature_information_gain vegetation_df "vegetation" "soil" "foo")
     = (Raises (ValueError "Unknown impurity criterion"),
        header "vegetation" "soil" "foo").
Proof.
  assert (Ht : In "vegetation"%string (columns vegetation_df)) by (simpl; tauto).
  assert (He : "foo"%string <> "entropy"%string) by discriminate.
  assert (Hg : "foo"%string <> "gini"%string) by discriminate.
  split; [exact Ht|]. split; [exact He|]. split; [exact Hg|].
  exact (unknown_criterion_raises vegetation_df "vegetation" "soil" "foo" Ht He Hg).
Defined.

(** X3. With the target a column and the criterion supported, a
    descriptive attribute that is not a column ends the call with
    [KeyError(descriptive_feature)]; only the three header lines are
    printed. *)
Theorem missing_descriptive_raises
  (df : DataFrame) (target descriptive_feature criterion : string) :
  In target (columns df) ->
  supported criterion ->
  ~ In descriptive_feature (columns df) ->
  run (comp_feature_information_gain df target descriptive_feature criterion)
  = (Raises (KeyError descriptive_feature),
     header target descriptive_feature criterion).
Proof.
  intros Ht Hc Hd. unfold run.
  destruct (index_of_In _ _ Ht) as [i Hi].
  pose proof (call_cases df target descriptive_feature criterion []) as C.
  cbv zeta in C. rewrite Hi, (index_of_absent _ _ Hd) in C.
  destruct C as [[He [Hg _]]|[_ C]]; [|exact C].
  destruct Hc; congruence.
Qed.

Lemma missing_descriptive_raises_witness :
  In "vegetation"%string (columns vegetation_df)
  /\ supported "gini"
  /\ ~ In "soil"%string (columns vegetation_df)
  /\ run (comp_feature_information_gain vegetation_df "vegetation" "soil" "gini")
     = (Raises (KeyError "soil"), header "vegetation" "soil" "gini").
Proof.
  assert (Ht : In "vegetation"%string (columns vegetation_df)) by (simpl; tauto).
  assert (Hc : supported "gini") by (now right).
  assert (Hd : ~ In "soil"%string (columns vegetation_df)).
  { simpl. intros [H|[H|[H|[H|[]]]]]; discriminate. }
  split; [exact Ht|]. split; [exact Hc|]. split; [exact Hd|].
  exact (missing_descriptive_raises vegetation_df "vegetation" "soil" "gini"
           Ht Hc Hd).
Defined.

(** X4. No call ends in [ZeroDivisionError]: the division by [len(df)] is
    only reached for a level of the descriptive column, and a frame with a
    level has a row. *)
Theorem never_divides_by_zero
  (df : DataFrame) (target descriptive_feature criterion : string) :
  fst (run (comp_feature_information_gain df target descriptive_feature criterion))
  <> Raises ZeroDivisionError.
Proof.
  unfold run.
  pose proof (call_cases df target descriptive_feature criterion []) as C.
  cbv zeta in C.
  destruct (index_of target (columns df)) as [i|].
  - destruct C as [[_ [_ C]]|[_ C]].
    + rewrite C. discriminate.
    + destruct (index_of descriptive_feature (columns df)); rewrite C; discriminate.
  - rewrite C. discriminate.
Qed.

(** X5. A call never takes back what was printed: whatever it is given
    and however it ends, its output is the earlier output, then the three
    header lines, then at most five more lines. *)
Theorem output_is_extended
  (df : DataFrame) (target descriptive_feature criterion : string)
  (out : list line) :
  exists rest,
    snd (comp_feature_information_gain df target descriptive_feature criterion out)
    = out ++ header target descriptive_feature criterion ++ rest
    /\ (List.length rest <= 5)%nat.
Proof.
  pose proof (call_cases df target descriptive_feature criterion out) as C.
  cbv zeta in C.
  destruct (index_of target (columns df)) as [i|].
  - destruct C as [[_ [_ C]]|[_ C]].
    + exists []. rewrite C, app_nil_r. split; [reflexivity|simpl; lia].
    + destruct (index_of descriptive_feature (columns df)) as [j|].
      * rewrite C. eexists. split; [reflexivity|simpl; lia].
      * exists []. rewrite C, app_nil_r. split; [reflexivity|simpl; lia].
  - exists []. rewrite C, app_nil_r. split; [reflexivity|simpl; lia].
Qed.

(** ** The order of the labels and of the rows *)

Lemma count_perm (v : value) (s s' : Series) :
  Permutation s s' -> count v s = count v s'.
Proof. induction 1; simpl; lia. Qed.

Lemma unique_perm (s s' : Series) :
  Permutation s s' -> Permutation (unique s) (unique s').
Proof.
  intros H. apply NoDup_Permutation; try apply unique_NoDup.
  intros x. rewrite !unique_In. split; apply Permutation_in; [|symmetry]; exact H.
Qed.

Lemma len_perm {A} (l l' : list A) : Permutation l l' -> len l = len l'.
Proof. intros H. unfold len. now rewrite (Permutation_length H). Qed.

Lemma spec_distribution_perm (s s' : Series) :
  Permutation s s' ->
  Permutation (spec_distribution s) (spec_distribution s').
Proof.
  intros H. unfold spec_distribution.
  rewrite (map_ext (fun v => IZR (count v s) / IZR (len s))
                   (fun v => IZR (count v s') / IZR (len s'))).
  - apply Permutation_map, unique_perm, H.
  - intros v. now rewrite (count_perm v s s' H), (len_perm s s' H).
Qed.

Lemma spec_impurity_perm (s s' : Series) (criterion : string) :
  Permutation s s' -> spec_impurity s criterion = spec_impurity s' criterion.
Proof.
  intros H. pose proof (spec_distribution_perm s s' H) as P.
  unfold spec_impurity, spec_entropy, spec_gini.
  destruct (String.eqb criterion "entropy").
  - now rewrite (np_sum_perm _ _ (Permutation_map (fun x => x * log2 x) P)).
  - now rewrite (np_sum_perm _ _ (Permutation_map (fun x => x ^ 2) P)).
Qed.

(** X6. [compute_impurity] does not depend on the order of the labels:
    two sequences that are permutations of each other get the same outcome,
    under every criterion string. *)
Theorem compute_impurity_order (s s' : Series) (criterion : string) :
  Permutation s s' ->
  compute_impurity s criterion = compute_impurity s' criterion.
Proof.
  intros H. destruct (criterion_cases criterion) as [Hc|[He Hg]].
  - rewrite !(compute_impurity_spec _ _ Hc).
    now rewrite (spec_impurity_perm s s' criterion H).
  - now rewrite !(compute_impurity_unsupported _ _ He Hg).
Qed.

Lemma compute_impurity_order_witness :
  Permutation [apple; orange; apple] [orange; apple; apple]
  /\ compute_impurity [apple; orange; apple] "entropy"
     = compute_impurity [orange; apple; apple] "entropy".
Proof.
  assert (H : Permutation [apple; orange; apple] [orange; apple; apple])
    by apply perm_swap.
  split; [exact H|].
  exact (compute_impurity_order _ _ "entropy" H).
Defined.

Lemma value_eqb_false (a b : value) : a <> b -> value_eqb a b = false.
Proof.
  intros H. destruct (value_eqb a b) eqn:E; [|reflexivity].
  apply value_eqb_eq in E. contradiction.
Qed.

Lemma value_eqb_map (f : value -> value) (v w : value) :
  (f v = f w -> v = w) -> value_eqb (f v) (f w) = value_eqb v w.
Proof.
  intros Inj. destruct (value_eqb v w) eqn:E.
  - apply value_eqb_eq in E. subst. apply value_eqb_refl.
  - apply value_eqb_false. intros F. apply Inj in F. subst.
    now rewrite value_eqb_refl in E.
Qed.

Lemma count_map (f : value -> value) (v : value) (s : Series) :
  (forall w, In w s -> f v = f w -> v = w) ->
  count (f v) (map f s) = count v s.
Proof.
  induction s as [|w s IH]; intros Inj; [reflexivity|].
  cbn [map count]. rewrite value_eqb_map by (apply Inj; now left).
  rewrite IH; [reflexivity|]. intros x Hx. apply Inj. now right.
Qed.

Lemma filter_differs_map (f : value -> value) (a : value) (u : Series) :
  (forall x, In x u -> f a = f x -> a = x) ->
  filter (differs (f a)) (map f u) = map f (filter (differs a) u).
Proof.
  induction u as [|x u IH]; intros Inj; [reflexivity|].
  cbn [map filter].
  change (differs (f a) (f x)) with (negb (value_eqb (f a) (f x))).
  change (differs a x) with (negb (value_eqb a x)).
  rewrite value_eqb_map by (apply Inj; now left).
  destruct (value_eqb a x); cbn [negb map];
    rewrite IH by (intros y Hy; apply Inj; now right); reflexivity.
Qed.

Lemma unique_map (f : value -> value) (s : Series) :
  (forall v w, In v s -> In w s -> f v = f w -> v = w) ->
  unique (map f s) = map f (unique s).
Proof.
  induction s as [|a s IH]; intros Inj; [reflexivity|].
  cbn [map unique]. f_equal.
  rewrite IH by (intros v w Hv Hw; apply Inj; now right).
  apply filter_differs_map.
  intros x Hx. apply Inj; [now left|right; now apply unique_In].
Qed.

Lemma len_map {A B} (f : A -> B) (l : list A) : len (map f l) = len l.
Proof. unfold len. now rewrite length_map. Qed.

Lemma spec_distribution_map (f : value -> value) (s : Series) :
  (forall v w, In v s -> In w s -> f v = f w -> v = w) ->
  spec_distribution (map f s) = spec_distribution s.
Proof.
  intros Inj. unfold spec_distribution.
  rewrite (unique_map f s Inj), map_map, len_map.
  apply map_ext_in. intros v Hv. apply (proj1 (unique_In s v)) in Hv.
  rewrite count_map; [reflexivity|].
  intros w Hw. now apply Inj.
Qed.

(** X7. [compute_impurity] does not depend on what the labels are called:
    renaming the labels by a map that keeps the labels of the sequence
    apart leaves the outcome unchanged. *)
Theorem compute_impurity_renaming
  (f : value -> value) (s : Series) (criterion : string) :
  (forall v w, In v s -> In w s -> f v = f w -> v = w) ->
  compute_impurity (map f s) criterion = compute_impurity s criterion.
Proof.
  intros Inj. destruct (criterion_cases criterion) as [Hc|[He Hg]].
  - rewrite !(compute_impurity_spec _ _ Hc). unfold spec_impurity.
    now rewrite (spec_distribution_map f s Inj).
  - now rewrite !(compute_impurity_unsupported _ _ He Hg).
Qed.

Lemma rename_injective (v w : value) : rename v = rename w -> v = w.
Proof.
  destruct v as [b|s], w as [c|t]; simpl; intros H; try discriminate.
  - injection H as H. destruct b, c; simpl in H; congruence.
  - injection H as H. now subst.
Qed.

Lemma compute_impurity_renaming_witness :
  (forall v w, In v fruits -> In w fruits -> rename v = rename w -> v = w)
  /\ compute_impurity (map rename fruits) "gini" = compute_impurity fruits "gini".
Proof.
  assert (H : forall v w, In v fruits -> In w fruits ->
                          rename v = rename w -> v = w)
    by (intros v w _ _; apply rename_injective).
  split; [exact H|].
  exact (compute_impurity_renaming rename fruits "gini" H).
Defined.

Lemma filter_permutation {A} (f : A -> bool) (l l' : list A) :
  Permutation l l' -> Permutation (filter f l) (filter f l').
Proof.
  induction 1 as [|x l l' H IH|x y l|l l' l'' H1 IH1 H2 IH2]; simpl.
  - constructor.
  - destruct (f x); [now constructor|assumption].
  - destruct (f x), (f y); try reflexivity. apply perm_swap.
  - now transitivity (filter f l').
Qed.

(** The gain of a frame depends on its rows up to their order. *)
Lemma information_gain_rows (df df' : DataFrame) (i j : nat) (criterion : string) :
  Permutation (rows df) (rows df') ->
  information_gain df i j criterion = information_gain df' i j criterion.
Proof.
  intros H. unfold information_gain. f_equal.
  - unfold target_impurity. f_equal.
    apply spec_impurity_perm, Permutation_map, H.
  - rewrite !remaining_impurity_sum.
    assert (P : forall level,
               Permutation (spec_partition df j level) (spec_partition df' j level))
      by (intros level; now apply filter_permutation).
    rewrite (map_ext
               (fun level =>
                  round (spec_impurity (partition_targets df i j level) criterion) 3
                  * round (spec_weight df j level) 3)
               (fun level =>
                  round (spec_impurity (partition_targets df' i j level) criterion) 3
                  * round (spec_weight df' j level) 3)).
    + apply np_sum_perm, Permutation_map. unfold levels.
      apply unique_perm, Permutation_map, H.
    + intros level. unfold partition_targets, spec_weight.
      rewrite (spec_impurity_perm _ _ criterion
                 (Permutation_map (cell i) (P level))).
      now rewrite (len_perm _ _ (P level)), (len_perm _ _ H).
Qed.

(** X8. The outcome of [comp_feature_information_gain] (the returned gain
    or the exception) does not depend on the order of the rows of the
    frame. *)
Theorem gain_row_order
  (df df' : DataFrame) (target descriptive_feature criterion : string) :
  columns df = columns df' ->
  Permutation (rows df) (rows df') ->
  fst (run (comp_feature_information_gain df target descriptive_feature criterion))
  = fst (run (comp_feature_information_gain df' target descriptive_feature
                criterion)).
Proof.
  intros Hcols Hrows. unfold run.
  pose proof (call_cases df target descriptive_feature criterion []) as C.
  pose proof (call_cases df' target descriptive_feature criterion []) as C'.
  cbv zeta in C, C'. rewrite <- Hcols in C'.
  destruct (index_of target (columns df)) as [i|].
  - destruct C as [[He [Hg C]]|[Hc C]], C' as [[He' [Hg' C']]|[Hc' C']];
      try (destruct Hc; congruence); try (destruct Hc'; congruence).
    + now rewrite C, C'.
    + destruct (index_of descriptive_feature (columns df)) as [j|];
        rewrite C, C'; [|reflexivity].
      simpl fst. f_equal. now apply information_gain_rows.
  - now rewrite C, C'.
Qed.

Lemma gain_row_order_witness :
  columns small_df = columns small_df_shuffled
  /\ Permutation (rows small_df) (rows small_df_shuffled)
  /\ fst (run (comp_feature_information_gain small_df "label" "feature" "gini"))
     = fst (run (comp_feature_information_gain small_df_shuffled "label" "feature"
                   "gini")).
Proof.
  assert (Hc : columns small_df = columns small_df_shuffled) by reflexivity.
  assert (Hr : Permutation (rows small_df) (rows small_df_shuffled)).
  { simpl. apply Permutation_rev. }
  split; [exact Hc|]. split; [exact Hr|].
  exact (gain_row_order small_df small_df_shuffled "label" "feature" "gini" Hc Hr).
Defined.

(** ** Partitions and weights *)

Lemma partition_len (df : DataFrame) (j : nat) (level : value) :
  len (spec_partition df j level) = count level (map (cell j) (rows df)).
Proof.
  unfold spec_partition, len.
  induction (rows df) as [|r rs IH]; [reflexivity|].
  cbn [filter map count]. rewrite (value_eqb_sym level).
  destruct (value_eqb (cell j r) level); cbn [List.length].
  - rewrite Nat2Z.inj_succ, IH. lia.
  - rewrite IH. lia.
Qed.




Lemma round3_window (x : R) :
  round x 3 - 5 / 10000 <= x <= round x 3 + 5 / 10000.
Proof.
  rewrite round3_unfold.
  pose proof (round_half_even_dist (x * 1000)) as D. lra.
Qed.

Lemma round3_nonneg (x : R) : 0 <= x -> 0 <= round x 3.
Proof.
  intros H. rewrite round3_unfold.
  pose proof (round_half_even_dist (x * 1000)) as D.
  assert (Z0 : (-1 < round_half_even (x * 1000))%Z).
  { apply lt_IZR. lra. }
  assert (0 <= IZR (round_half_even (x * 1000))) by (apply IZR_le; lia).
  lra.
Qed.

(** Before rounding, the weights of a non-empty frame add up to one. *)
Lemma weights_total (df : DataFrame) (j : nat) :
  rows df <> [] -> np_sum (map (spec_weight df j) (levels df j)) = 1.
Proof.
  intros H. unfold spec_weight, levels.
  rewrite (np_sum_scaled (fun level => len (spec_partition df j level))).
  rewrite (map_ext _ (fun level => count level (map (cell j) (rows df))))
    by (intros; apply partition_len).
  rewrite count_total, len_map.
  pose proof (len_pos (rows df) H). now field_simplify_eq; [|lra].
Qed.

Lemma nearest3_window (x y : R) :
  nearest3 x y -> x - 5 / 10000 <= y <= x + 5 / 10000.
Proof. intros [z [-> H]]. lra. Qed.

Lemma np_sum_close2 {A} (g : A -> R) (e : R) (l : list A) (ys : list R) :
  Forall2 (fun x y => g x - e <= y <= g x + e) l ys ->
  np_sum (map g l) - INR (List.length ys) * e
  <= np_sum ys
  <= np_sum (map g l) + INR (List.length ys) * e.
Proof.
  induction 1 as [|x y l ys Hxy Hrest IH].
  - simpl. lra.
  - cbn [map np_sum fold_right List.length]. rewrite S_INR.
    fold (np_sum (map g l)). fold (np_sum ys). lra.
Qed.

(** X10. The weights in [weight_list] are rounded one by one, so the list
    the call prints need not add up to 1: on a call with a non-empty frame,
    both attributes present and a supported criterion, the printed list
    has one weight per level and its sum is within 0.0005 times the number
    of levels of 1. *)
Theorem rounded_weights_total
  (df : DataFrame) (target descriptive_feature criterion : string) (i j : nat) :
  rows df <> [] ->
  index_of target (columns df) = Some i ->
  index_of descriptive_feature (columns df) = Some j ->
  supported criterion ->
  exists wl,
    In [PStr "weights of partitions:"; PList wl]
       (snd (run (comp_feature_information_gain df target descriptive_feature
                    criterion)))
    /\ List.length wl = List.length (unique (map (cell j) (rows df)))
    /\ 1 - INR (List.length wl) * (5 / 10000)
       <= np_sum wl
       <= 1 + INR (List.length wl) * (5 / 10000).
Proof.
  intros Hr Hi Hj Hc.
  destruct (call_parts df target descriptive_feature criterion i j Hi Hj Hc)
    as [T [el [wl [_ [_ [_ [Hwl Hrun]]]]]]].
  exists wl. rewrite Hrun. split; [|split].
  - cbn [snd]. do 4 right. now left.
  - symmetry. apply (Forall2_length Hwl).
  - rewrite <- (weights_total df j Hr).
    apply np_sum_close2.
    eapply Forall2_impl; [|exact Hwl].
    intros level w H. now apply nearest3_window.
Qed.

Lemma rounded_weights_total_witness :
  rows vegetation_df <> []
  /\ index_of "vegetation" (columns vegetation_df) = Some 3%nat
  /\ index_of "elevation" (columns vegetation_df) = Some 2%nat
  /\ supported "entropy"
  /\ exists wl,
       In [PStr "weights of partitions:"; PList wl]
          (snd (run (comp_feature_information_gain vegetation_df "vegetation"
                       "elevation" "entropy")))
       /\ List.length wl
          = List.length (unique (map (cell 2) (rows vegetation_df)))
       /\ 1 - INR (List.length wl) * (5 / 10000)
          <= np_sum wl
          <= 1 + INR (List.length wl) * (5 / 10000).
Proof.
  assert (Hr : rows vegetation_df <> []) by discriminate.
  assert (Hi : index_of "vegetation" (columns vegetation_df) = Some 3%nat)
    by reflexivity.
  assert (Hj : index_of "elevation" (columns vegetation_df) = Some 2%nat)
    by reflexivity.
  assert (Hc : supported "entropy") by (now left).
  split; [exact Hr|]. split; [exact Hi|]. split; [exact Hj|]. split; [exact Hc|].
  exact (rounded_weights_total vegetation_df "vegetation" "elevation" "entropy"
           3 2 Hr Hi Hj Hc).
Defined.

(** The weights printed for 'elevation' add up to 1.001. *)
Example elevation_weights_total :
  np_sum (partition_weights vegetation_df 2) = 1001 / 1000.
Proof. destruct elevation_lists as [_ ->]. simpl. lra. Qed.

Lemma spec_weight_nonneg (df : DataFrame) (j : nat) (level : value) :
  0 <= spec_weight df j level.
Proof.
  unfold spec_weight.
  assert (A : 0 <= IZR (len (spec_partition df j level)))
    by (apply IZR_le; unfold len; lia).
  assert (B : 0 <= IZR (len (rows df))) by (apply IZR_le; unfold len; lia).
  destruct B as [B|B].
  - apply Rmult_le_pos; [assumption|]. left. now apply Rinv_0_lt_compat.
  - rewrite <- B. unfold Rdiv. rewrite Rinv_0. lra.
Qed.

Lemma partition_targets_nonempty (df : DataFrame) (i j : nat) (level : value) :
  In level (levels df j) -> partition_targets df i j level <> [].
Proof.
  intros H N. unfold partition_targets in N. apply map_eq_nil in N.
  now apply (level_partition_nonempty df j level H).
Qed.

Lemma remaining_impurity_nonneg (df : DataFrame) (i j : nat) (criterion : string) :
  0 <= remaining_impurity df i j criterion.
Proof.
  rewrite remaining_impurity_sum. apply np_sum_nonneg.
  intros x Hx. apply in_map_iff in Hx. destruct Hx as [level [<- Hl]].
  apply Rmult_le_pos; apply round3_nonneg.
  - apply spec_impurity_nonneg. now apply partition_targets_nonempty.
  - apply spec_weight_nonneg.
Qed.

(** X11. On a valid call the remaining impurity that is printed is never
    negative, so the returned gain never exceeds the impurity
    [compute_impurity] gives for the whole target column. *)
Theorem gain_at_most_target_impurity
  (df : DataFrame) (target descriptive_feature criterion : string) (i j : nat) :
  index_of target (columns df) = Some i ->
  index_of descriptive_feature (columns df) = Some j ->
  supported criterion ->
  exists gain remaining,
    fst (run (comp_feature_information_gain df target descriptive_feature
                criterion))
    = Returns gain
    /\ In [PStr "remaining impurity:"; PFloat remaining]
          (snd (run (comp_feature_information_gain df target descriptive_feature
                       criterion)))
    /\ 0 <= remaining
    /\ gain = impurity_value (map (cell i) (rows df)) criterion - remaining
    /\ gain <= impurity_value (map (cell i) (rows df)) criterion.
Proof.
  intros Hi Hj Hc.
  exists (information_gain df i j criterion), (remaining_impurity df i j criterion).
  unfold run.
  rewrite (call_run df target descriptive_feature criterion i j Hi Hj Hc).
  pose proof (remaining_impurity_nonneg df i j criterion) as N.
  rewrite (impurity_value_spec _ _ Hc).
  fold (target_impurity df i criterion). unfold information_gain.
  repeat split; try lra.
  cbn [snd app]. unfold gain_log. do 5 right. now left.
Qed.

Lemma gain_at_most_target_impurity_witness :
  index_of "label" (columns small_df) = Some 1%nat
  /\ index_of "feature" (columns small_df) = Some 0%nat
  /\ supported "gini"
  /\ exists gain remaining,
       fst (run (comp_feature_information_gain small_df "label" "feature" "gini"))
       = Returns gain
       /\ In [PStr "remaining impurity:"; PFloat remaining]
             (snd (run (comp_feature_information_gain small_df "label" "feature"
                          "gini")))
       /\ 0 <= remaining
       /\ gain = impurity_value (map (cell 1) (rows small_df)) "gini" - remaining
       /\ gain <= impurity_value (map (cell 1) (rows small_df)) "gini".
Proof.
  assert (Hi : index_of "label" (columns small_df) = Some 1%nat) by reflexivity.
  assert (Hj : index_of "feature" (columns small_df) = Some 0%nat) by reflexivity.
  assert (Hc : supported "gini") by (now right).
  split; [exact Hi|]. split; [exact Hj|]. split; [exact Hc|].
  exact (gain_at_most_target_impurity small_df "label" "feature" "gini" 1 0
           Hi Hj Hc).
Defined.

(** ** The range of the impurity *)

Lemma round_half_even_mono (x y : R) :
  x <= y -> (round_half_even x <= round_half_even y)%Z.
Proof.
  intros H.
  destruct (Z.le_gt_cases (round_half_even x) (round_half_even y)) as [L|G];
    [assumption|exfalso].
  pose proof (round_half_even_dist x) as Dx.
  pose proof (round_half_even_dist y) as Dy.
  assert (G' : IZR (round_half_even y) + 1 <= IZR (round_half_even x)).
  { rewrite <- plus_IZR. apply IZR_le. lia. }
  assert (E : x = y) by lra.
  subst. lia.
Qed.

Lemma round3_mono (x y : R) : x <= y -> round x 3 <= round y 3.
Proof.
  intros H. rewrite !round3_unfold.
  assert (L : (round_half_even (x * 1000) <= round_half_even (y * 1000))%Z)
    by (apply round_half_even_mono; lra).
  apply IZR_le in L. lra.
Qed.

Lemma sum_squares_shift (c : R) (l : list R) :
  np_sum (map (fun x => (x - c) ^ 2) l)
  = np_sum (map (fun x => x ^ 2) l) - 2 * c * np_sum l
    + INR (List.length l) * c ^ 2.
Proof.
  induction l as [|a l IH].
  - simpl. lra.
  - cbn [map np_sum fold_right List.length]. rewrite S_INR.
    fold (np_sum (map (fun x => (x - c) ^ 2) l)).
    fold (np_sum (map (fun x => x ^ 2) l)). fold (np_sum l).
    rewrite IH. ring.
Qed.

(** Frequencies that add up to one have a Gini index of at most
    [1 - 1/l], [l] being their number. *)
Lemma gini_upper (p : list R) :
  p <> [] -> np_sum p = 1 ->
  spec_gini p <= 1 - 1 / INR (List.length p).
Proof.
  intros Hp H1.
  assert (L : 0 < INR (List.length p)).
  { apply lt_0_INR. destruct p; [congruence|simpl; lia]. }
  pose proof (sum_squares_shift (1 / INR (List.length p)) p) as S.
  assert (N : 0 <= np_sum (map (fun x => (x - 1 / INR (List.length p)) ^ 2) p)).
  { apply np_sum_nonneg. intros y Hy. apply in_map_iff in Hy.
    destruct Hy as [x [<- _]]. apply pow2_ge_0. }
  rewrite S, H1 in N.
  assert (E : INR (List.length p) * (1 / INR (List.length p)) ^ 2
              = 1 / INR (List.length p)) by (field; lra).
  unfold spec_gini. lra.
Qed.

Lemma ln_le_minus_1 (y : R) : 0 < y -> ln y <= y - 1.
Proof.
  intros H. destruct (Req_dec y 1) as [->|N].
  - rewrite ln_1. lra.
  - left. replace y with (1 + (y - 1)) at 1 by lra.
    rewrite <- (ln_exp (y - 1)) at 2.
    apply ln_increasing; [lra|]. apply exp_ineq1. lra.
Qed.

Lemma entropy_term_upper (c x : R) :
  0 < c -> 0 < x -> - (x * ln x) <= x * ln c + 1 / c - x.
Proof.
  intros Hc Hx.
  assert (P : 0 < 1 / (c * x)).
  { apply Rdiv_lt_0_compat; [lra|]. now apply Rmult_lt_0_compat. }
  pose proof (ln_le_minus_1 _ P) as L.
  unfold Rdiv in L. rewrite Rmult_1_l in L.
  rewrite ln_Rinv, ln_mult in L by (try assumption; now apply Rmult_lt_0_compat).
  assert (E : x * (/ (c * x) - 1) = 1 / c - x) by (field; lra).
  assert (M : x * (- (ln c + ln x)) <= x * (/ (c * x) - 1))
    by (apply Rmult_le_compat_l; lra).
  lra.
Qed.

Lemma entropy_ln_upper (c : R) (p : list R) :
  0 < c -> (forall x, In x p -> 0 < x) ->
  np_sum (map (fun x => - (x * ln x)) p)
  <= np_sum p * ln c + INR (List.length p) / c - np_sum p.
Proof.
  intros Hc. induction p as [|a p IH]; intros Hp.
  - simpl. lra.
  - cbn [map np_sum fold_right List.length]. rewrite S_INR.
    fold (np_sum (map (fun x => - (x * ln x)) p)). fold (np_sum p).
    assert (Ha : 0 < a) by (apply Hp; now left).
    pose proof (entropy_term_upper c a Hc Ha) as T.
    assert (IH' := IH (fun x Hx => Hp x (or_intror Hx))).
    unfold Rdiv in *. lra.
Qed.

Lemma spec_entropy_ln (p : list R) :
  spec_entropy p * ln 2 = np_sum (map (fun x => - (x * ln x)) p).
Proof.
  unfold spec_entropy, log2. pose proof ln_2_pos as L.
  induction p as [|a p IH].
  - simpl. lra.
  - cbn [map np_sum fold_right] in *.
    fold (np_sum (map (fun x => x * (ln x / ln 2)) p)) in *.
    fold (np_sum (map (fun x => - (x * ln x)) p)).
    rewrite <- IH. field. lra.
Qed.

(** Positive frequencies that add up to one have an entropy of at most
    [log2 l], [l] being their number. *)
Lemma entropy_upper (p : list R) :
  p <> [] -> np_sum p = 1 -> (forall x, In x p -> 0 < x) ->
  spec_entropy p <= log2 (INR (List.length p)).
Proof.
  intros Hp H1 Pos.
  assert (L : 0 < INR (List.length p)).
  { apply lt_0_INR. destruct p; [congruence|simpl; lia]. }
  pose proof (entropy_ln_upper (INR (List.length p)) p L Pos) as U.
  rewrite <- spec_entropy_ln, H1 in U.
  assert (E : INR (List.length p) / INR (List.length p) = 1) by (field; lra).
  rewrite E in U.
  pose proof ln_2_pos as L2. unfold log2.
  apply Rmult_le_reg_r with (ln 2); [assumption|].
  unfold Rdiv at 1. rewrite Rmult_assoc, Rinv_l by lra. lra.
Qed.

Lemma distribution_length (s : Series) :
  INR (List.length (spec_distribution s)) = IZR (len (unique s)).
Proof.
  unfold spec_distribution, len. now rewrite length_map, INR_IZR_INZ.
Qed.

Lemma distribution_nonempty (s : Series) : s <> [] -> spec_distribution s <> [].
Proof. destruct s; [congruence|]. discriminate. Qed.

(** X12. For a non-empty sequence with [l] distinct labels,
    [compute_impurity] under 'gini' returns a value between 0 and
    [round(1 - 1/l, 3)], hence between 0 and 1. *)
Theorem gini_range (s : Series) :
  s <> [] ->
  exists x,
    compute_impurity s "gini" = Returns x
    /\ 0 <= x <= round (1 - 1 / IZR (len (unique s))) 3
    /\ x <= 1.
Proof.
  intros Hs. exists (round (spec_impurity s "gini") 3).
  assert (Hc : supported "gini") by (now right).
  pose proof (spec_impurity_nonneg s "gini" Hs) as N.
  assert (U : spec_impurity s "gini" <= 1 - 1 / IZR (len (unique s))).
  { unfold spec_impurity. simpl String.eqb. cbv iota.
    rewrite <- distribution_length.
    apply gini_upper; [now apply distribution_nonempty|now apply distribution_total]. }
  assert (P : 0 < IZR (len (unique s))).
  { rewrite <- distribution_length. apply lt_0_INR.
    pose proof (distribution_nonempty s Hs).
    destruct (spec_distribution s); [congruence|simpl; lia]. }
  assert (Q : 0 < 1 / IZR (len (unique s))) by (apply Rdiv_lt_0_compat; lra).
  split; [apply (compute_impurity_spec s "gini" Hc)|].
  split; [split|].
  - now apply round3_nonneg.
  - now apply round3_mono.
  - rewrite <- round3_1. apply round3_mono. lra.
Qed.

Lemma gini_range_witness :
  fruits <> []
  /\ exists x,
       compute_impurity fruits "gini" = Returns x
       /\ 0 <= x <= round (1 - 1 / IZR (len (unique fruits))) 3
       /\ x <= 1.
Proof.
  assert (H : fruits <> []) by discriminate.
  split; [exact H|]. exact (gini_range fruits H).
Defined.

(** X13. For a non-empty sequence with [l] distinct labels,
    [compute_impurity] under 'entropy' returns a value between 0 and
    [round(log2 l, 3)]. *)
Theorem entropy_range (s : Series) :
  s <> [] ->
  exists x,
    compute_impurity s "entropy" = Returns x
    /\ 0 <= x <= round (log2 (IZR (len (unique s)))) 3.
Proof.
  intros Hs. exists (round (spec_impurity s "entropy") 3).
  assert (Hc : supported "entropy") by (now left).
  pose proof (spec_impurity_nonneg s "entropy" Hs) as N.
  assert (U : spec_impurity s "entropy" <= log2 (IZR (len (unique s)))).
  { unfold spec_impurity. simpl String.eqb. cbv iota.
    rewrite <- distribution_length.
    apply entropy_upper;
      [now apply distribution_nonempty|now apply distribution_total|].
    intros x Hx. now apply (distribution_range s x). }
  split; [apply (compute_impurity_spec s "entropy" Hc)|].
  split; [now apply round3_nonneg|now apply round3_mono].
Qed.

Lemma entropy_range_witness :
  fruits <> []
  /\ exists x,
       compute_impurity fruits "entropy" = Returns x
       /\ 0 <= x <= round (log2 (IZR (len (unique fruits)))) 3.
Proof.
  assert (H : fruits <> []) by discriminate.
  split; [exact H|]. exact (entropy_range fruits H).
Defined.

(** ** Equally frequent labels *)

Lemma np_sum_const {A} (c : R) (l : list A) :
  np_sum (map (fun _ => c) l) = INR (List.length l) * c.
Proof.
  induction l as [|a l IH]; [simpl; lra|].
  cbn [map np_sum fold_right List.length]. rewrite S_INR.
  fold (np_sum (map (fun _ : A => c) l)). rewrite IH. lra.
Qed.

Lemma zsum_const {A} (k : Z) (l : list A) :
  zsum (map (fun _ => k) l) = (len l * k)%Z.
Proof.
  unfold len. induction l as [|a l IH]; [reflexivity|].
  cbn [map zsum fold_right List.length].
  fold (zsum (map (fun _ : A => k) l)). rewrite IH. lia.
Qed.

(** When every label occurs equally often, every frequency is one over
    the number of distinct labels. *)
Lemma uniform_distribution (s : Series) :
  s <> [] ->
  (forall v w, In v s -> In w s -> count v s = count w s) ->
  spec_distribution s = map (fun _ => 1 / IZR (len (unique s))) (unique s).
Proof.
  intros Hs Heq. destruct s as [|a s']; [congruence|].
  set (s := a :: s') in *.
  assert (Ha : In a s) by now left.
  pose proof (count_pos a s Ha) as K.
  assert (T : len s = (len (unique s) * count a s)%Z).
  { rewrite <- (count_total s), <- zsum_const. f_equal.
    apply map_ext_in. intros v Hv. apply Heq; [|assumption].
    now apply unique_In. }
  assert (U : (0 < len (unique s))%Z).
  { pose proof (len_pos s Hs) as P. apply lt_IZR in P. nia. }
  unfold spec_distribution. apply map_ext_in. intros v Hv.
  rewrite (Heq v a) by (try assumption; now apply unique_In).
  rewrite T, mult_IZR.
  apply IZR_lt in K, U. field. lra.
Qed.

Lemma uniform_impurity (s : Series) :
  s <> [] ->
  (forall v w, In v s -> In w s -> count v s = count w s) ->
  spec_entropy (spec_distribution s) = log2 (IZR (len (unique s)))
  /\ spec_gini (spec_distribution s) = 1 - 1 / IZR (len (unique s)).
Proof.
  intros Hs Heq. set (l := IZR (len (unique s))).
  assert (P : 0 < l).
  { unfold l. rewrite <- distribution_length. apply lt_0_INR.
    pose proof (distribution_nonempty s Hs).
    destruct (spec_distribution s); [congruence|simpl; lia]. }
  assert (N : INR (List.length (unique s)) = l)
    by (unfold l, len; apply INR_IZR_INZ).
  rewrite (uniform_distribution s Hs Heq). fold l. split.
  - unfold spec_entropy. rewrite map_map, np_sum_const, N.
    rewrite log2_div, log2_1 by lra. field. lra.
  - unfold spec_gini. rewrite map_map, np_sum_const, N. field. lra.
Qed.

(** X14. When every distinct label of a non-empty sequence occurs equally
    often, the entropy is [log2 l] and the Gini index [1 - 1/l], [l] being
    the number of distinct labels: the expressions of the notebook give
    these values and [compute_impurity] returns them rounded to 3
    decimals. *)
Theorem equal_frequencies (s : Series) :
  s <> [] ->
  (forall v w, In v s -> In w s -> count v s = count w s) ->
  let probs := map snd (value_counts_normalize s) in
  let l := IZR (len (unique s)) in
  -1 * np_sum (np_mul (np_log2 probs) probs) = log2 l
  /\ 1 - np_sum (np_square probs) = 1 - 1 / l
  /\ compute_impurity s "entropy" = Returns (round (log2 l) 3)
  /\ compute_impurity s "gini" = Returns (round (1 - 1 / l) 3).
Proof.
  intros Hs Heq probs l.
  destruct (uniform_impurity s Hs Heq) as [E G]. fold l in E, G.
  split; [|split; [|split]].
  - unfold probs. now rewrite (entropy_code_spec _ _ (probs_distribution s)).
  - unfold probs. now rewrite (gini_code_spec _ _ (probs_distribution s)).
  - rewrite (compute_impurity_spec s "entropy") by now left.
    unfold spec_impurity. simpl String.eqb. cbv iota. now rewrite E.
  - rewrite (compute_impurity_spec s "gini") by now right.
    unfold spec_impurity. simpl String.eqb. cbv iota. now rewrite G.
Qed.

Lemma fruits2_equal (v w : value) :
  In v fruits2 -> In w fruits2 -> count v fruits2 = count w fruits2.
Proof.
  intros Hv Hw. simpl in Hv, Hw.
  repeat (destruct Hv as [<-|Hv]; [|]); try contradiction;
    repeat (destruct Hw as [<-|Hw]; [|]); try contradiction; reflexivity.
Qed.

Lemma equal_frequencies_witness :
  fruits2 <> []
  /\ (forall v w, In v fruits2 -> In w fruits2 ->
                  count v fruits2 = count w fruits2)
  /\ (let probs := map snd (value_counts_normalize fruits2) in
      let l := IZR (len (unique fruits2)) in
      -1 * np_sum (np_mul (np_log2 probs) probs) = log2 l
      /\ 1 - np_sum (np_square probs) = 1 - 1 / l
      /\ compute_impurity fruits2 "entropy" = Returns (round (log2 l) 3)
      /\ compute_impurity fruits2 "gini" = Returns (round (1 - 1 / l) 3)).
Proof.
  assert (H : fruits2 <> []) by discriminate.
  split; [exact H|]. split; [exact fruits2_equal|].
  exact (equal_frequencies fruits2 H fruits2_equal).
Defined.

(** The second basket of the notebook: entropy 2.807 and Gini index
    0.857, the rounded [log2 7] and [6/7]. *)
Example fruits2_impurity :
  compute_impurity fruits2 "entropy" = Returns (2807 / 1000)
  /\ compute_impurity fruits2 "gini" = Returns (857 / 1000).
Proof.
  destruct (uniform_impurity fruits2) as [E G];
    [discriminate|exact fruits2_equal|].
  rewrite (compute_impurity_spec _ "entropy") by now left.
  rewrite (compute_impurity_spec _ "gini") by now right.
  unfold spec_impurity. simpl String.eqb. cbv iota.
  rewrite E, G. crunch (len (unique fruits2)). split; f_equal.
  - apply round3_near. pose proof log2_7_bounds. lra.
  - apply round3_near. lra.
Qed.

(** ** Splits that gain nothing, splits that gain everything *)

Lemma filter_all {A} (f : A -> bool) (l : list A) :
  (forall x, In x l -> f x = true) -> filter f l = l.
Proof.
  induction l as [|a l IH]; intros H; [reflexivity|].
  cbn [filter]. rewrite (H a) by now left.
  f_equal. apply IH. intros x Hx. apply H. now right.
Qed.

(** A constant column has one level, and its partition is the frame. *)
Lemma constant_column (df : DataFrame) (j : nat) :
  rows df <> [] ->
  (forall r r', In r (rows df) -> In r' (rows df) -> cell j r = cell j r') ->
  exists v, levels df j = [v] /\ spec_partition df j v = rows df.
Proof.
  intros Hr Hconst. destruct (rows df) as [|r0 rs] eqn:E; [congruence|].
  exists (cell j r0). split.
  - unfold levels. rewrite E. cbn [map]. apply homogeneous_unique.
    intros v w Hv Hw.
    change (cell j r0 :: map (cell j) rs) with (map (cell j) (r0 :: rs)) in Hv, Hw.
    apply in_map_iff in Hv, Hw.
    destruct Hv as [r [<- Hr1]], Hw as [r' [<- Hr2]]. now apply Hconst.
  - unfold spec_partition. rewrite E. apply filter_all.
    intros r Hin. apply value_eqb_eq. apply Hconst; [assumption|now left].
Qed.

(** X15. Splitting on a column that holds one value only gains nothing:
    for a non-empty frame the single partition is the whole frame, its
    weight rounds to 1, the remaining impurity printed is the target
    impurity and the returned gain is 0. *)
Theorem constant_feature_gain
  (df : DataFrame) (target descriptive_feature criterion : string) (i j : nat) :
  rows df <> [] ->
  index_of target (columns df) = Some i ->
  index_of descriptive_feature (columns df) = Some j ->
  supported criterion ->
  (forall r r', In r (rows df) -> In r' (rows df) -> cell j r = cell j r') ->
  run (comp_feature_information_gain df target descriptive_feature criterion)
  = (Returns 0,
     header target descriptive_feature criterion
     ++ [ [PStr "impurity of partitions:";
           PList [impurity_value (map (cell i) (rows df)) criterion]];
          [PStr "weights of partitions:"; PList [1]];
          [PStr "remaining impurity:";
           PFloat (impurity_value (map (cell i) (rows df)) criterion)];
          [PStr "information gain:"; PFloat 0];
          [PStr "===================="] ]).
Proof.
  intros Hr Hi Hj Hc Hconst.
  destruct (constant_column df j Hr Hconst) as [v [Hl Hp]].
  unfold run.
  rewrite (call_run df target descriptive_feature criterion i j Hi Hj Hc).
  rewrite (impurity_value_spec _ _ Hc).
  assert (I : partition_impurities df i j criterion
              = [round (spec_impurity (map (cell i) (rows df)) criterion) 3]).
  { unfold partition_impurities, partition_targets. rewrite Hl. cbn [map].
    now rewrite Hp. }
  assert (W : partition_weights df j = [1]).
  { unfold partition_weights, spec_weight. rewrite Hl. cbn [map]. rewrite Hp.
    pose proof (len_pos (rows df) Hr) as P.
    replace (IZR (len (rows df)) / IZR (len (rows df))) with 1 by (field; lra).
    now rewrite round3_1. }
  assert (Rm : remaining_impurity df i j criterion
               = round (spec_impurity (map (cell i) (rows df)) criterion) 3).
  { unfold remaining_impurity. rewrite I, W. unfold np_mul. simpl. lra. }
  assert (G : information_gain df i j criterion = 0).
  { unfold information_gain, target_impurity. rewrite Rm. lra. }
  cbn [app]. unfold gain_log, header. cbn [app].
  now rewrite I, W, Rm, G.
Qed.

Lemma constant_feature_gain_witness :
  rows constant_df <> []
  /\ index_of "label" (columns constant_df) = Some 1%nat
  /\ index_of "feature" (columns constant_df) = Some 0%nat
  /\ supported "entropy"
  /\ (forall r r', In r (rows constant_df) -> In r' (rows constant_df) ->
                   cell 0 r = cell 0 r')
  /\ run (comp_feature_information_gain constant_df "label" "feature" "entropy")
     = (Returns 0,
        header "label" "feature" "entropy"
        ++ [ [PStr "impurity of partitions:";
              PList [impurity_value (map (cell 1) (rows constant_df)) "entropy"]];
             [PStr "weights of partitions:"; PList [1]];
             [PStr "remaining impurity:";
              PFloat (impurity_value (map (cell 1) (rows constant_df)) "entropy")];
             [PStr "information gain:"; PFloat 0];
             [PStr "===================="] ]).
Proof.
  assert (Hr : rows constant_df <> []) by discriminate.
  assert (Hi : index_of "label" (columns constant_df) = Some 1%nat) by reflexivity.
  assert (Hj : index_of "feature" (columns constant_df) = Some 0%nat) by reflexivity.
  assert (Hc : supported "entropy") by (now left).
  assert (Hk : forall r r', In r (rows constant_df) -> In r' (rows constant_df) ->
                            cell 0 r = cell 0 r').
  { intros r r' H H'. simpl in H, H'.
    destruct H as [<-|[<-|[<-|[]]]], H' as [<-|[<-|[<-|[]]]]; reflexivity. }
  split; [exact Hr|]. split; [exact Hi|]. split; [exact Hj|].
  split; [exact Hc|]. split; [exact Hk|].
  exact (constant_feature_gain constant_df "label" "feature" "entropy" 1 0
           Hr Hi Hj Hc Hk).
Defined.

(** When the descriptive column settles the target, every partition holds
    one target label. *)
Lemma determined_partition_homogeneous
  (df : DataFrame) (i j : nat) (level : value) :
  (forall r r', In r (rows df) -> In r' (rows df) ->
                cell j r = cell j r' -> cell i r = cell i r') ->
  homogeneous (partition_targets df i j level).
Proof.
  intros Hdet v w Hv Hw.
  unfold partition_targets, spec_partition in Hv, Hw.
  apply in_map_iff in Hv, Hw.
  destruct Hv as [r [<- Hr]], Hw as [r' [<- Hr']].
  apply filter_In in Hr, Hr'.
  destruct Hr as [Hr E], Hr' as [Hr' E'].
  apply value_eqb_eq in E, E'. apply Hdet; congruence.
Qed.

(** X16. When the descriptive column settles the target (rows that agree
    on the descriptive attribute agree on the target), every partition
    impurity is 0, the remaining impurity is 0 and the returned gain is the
    impurity [compute_impurity] gives for the whole target column. *)
Theorem determined_target_gain
  (df : DataFrame) (target descriptive_feature criterion : string) (i j : nat) :
  index_of target (columns df) = Some i ->
  index_of descriptive_feature (columns df) = Some j ->
  supported criterion ->
  (forall r r', In r (rows df) -> In r' (rows df) ->
                cell j r = cell j r' -> cell i r = cell i r') ->
  fst (run (comp_feature_information_gain df target descriptive_feature criterion))
  = Returns (impurity_value (map (cell i) (rows df)) criterion)
  /\ In [PStr "remaining impurity:"; PFloat 0]
        (snd (run (comp_feature_information_gain df target descriptive_feature
                     criterion)))
  /\ (forall level, In level (levels df j) ->
        compute_impurity (partition_targets df i j level) criterion = Returns 0).
Proof.
  intros Hi Hj Hc Hdet.
  assert (Z0 : forall level, In level (levels df j) ->
                 round (spec_impurity (partition_targets df i j level) criterion) 3
                 = 0).
  { intros level Hl.
    assert (E : spec_impurity (partition_targets df i j level) criterion = 0).
    { apply spec_impurity_zero; [now apply partition_targets_nonempty|].
      now apply determined_partition_homogeneous. }
    rewrite E. apply round3_0. }
  assert (R0 : remaining_impurity df i j criterion = 0).
  { unfold remaining_impurity. apply np_mul_zeros.
    unfold partition_impurities. intros x Hx. apply in_map_iff in Hx.
    destruct Hx as [level [<- Hl]]. now apply Z0. }
  unfold run.
  rewrite (call_run df target descriptive_feature criterion i j Hi Hj Hc).
  rewrite (impurity_value_spec _ _ Hc).
  split; [|split].
  - simpl fst. unfold information_gain, target_impurity. rewrite R0. f_equal. lra.
  - cbn [snd app]. unfold gain_log. rewrite R0. do 5 right. now left.
  - intros level Hl. rewrite (compute_impurity_spec _ _ Hc). f_equal. now apply Z0.
Qed.

Lemma determined_target_gain_witness :
  index_of "label" (columns determined_df) = Some 1%nat
  /\ index_of "feature" (columns determined_df) = Some 0%nat
  /\ supported "gini"
  /\ (forall r r', In r (rows determined_df) -> In r' (rows determined_df) ->
                   cell 0 r = cell 0 r' -> cell 1 r = cell 1 r')
  /\ fst (run (comp_feature_information_gain determined_df "label" "feature" "gini"))
     = Returns (impurity_value (map (cell 1) (rows determined_df)) "gini")
  /\ In [PStr "remaining impurity:"; PFloat 0]
        (snd (run (comp_feature_information_gain determined_df "label" "feature"
                     "gini")))
  /\ (forall level, In level (levels determined_df 0) ->
        compute_impurity (partition_targets determined_df 1 0 level) "gini"
        = Returns 0).
Proof.
  assert (Hi : index_of "label" (columns determined_df) = Some 1%nat)
    by reflexivity.
  assert (Hj : index_of "feature" (columns determined_df) = Some 0%nat)
    by reflexivity.
  assert (Hc : supported "gini") by (now right).
  assert (Hd : forall r r', In r (rows determined_df) -> In r' (rows determined_df) ->
                            cell 0 r = cell 0 r' -> cell 1 r = cell 1 r').
  { intros r r' H H'. simpl in H, H'.
    destruct H as [<-|[<-|[<-|[]]]], H' as [<-|[<-|[<-|[]]]];
      simpl; intros E; try reflexivity; discriminate. }
  split; [exact Hi|]. split; [exact Hj|]. split; [exact Hc|]. split; [exact Hd|].
  exact (determined_target_gain determined_df "label" "feature" "gini" 1 0
           Hi Hj Hc Hd).
Defined.

Lemma np_mul_same_l (t : R) (el wl : list R) :
  Forall (fun e => e = t) el ->
  List.length el = List.length wl ->
  np_sum (np_mul el wl) = t * np_sum wl.
Proof.
  intros H. revert wl. induction H as [|e el -> _ IH]; intros wl L.
  - destruct wl; [|discriminate]. unfold np_mul. simpl. lra.
  - destruct wl as [|w wl]; [discriminate|].
    injection L as L. specialize (IH wl L).
    unfold np_mul in *. cbn [combine map np_sum fold_right fst snd] in *.
    fold (np_sum (map (fun xy => fst xy * snd xy) (combine el wl))) in *.
    fold (np_sum wl). rewrite IH. lra.
Qed.

(** X17. When [compute_impurity] gives every partition the impurity of the
    whole target column (the split tells nothing about the target), the
    returned gain is that impurity times (1 - the sum of the weights the
    call prints): it is not 0 in general and is negative when the rounded
    weights add up to more than 1. *)
Theorem uninformative_split_gain
  (df : DataFrame) (target descriptive_feature criterion : string) (i j : nat) :
  index_of target (columns df) = Some i ->
  index_of descriptive_feature (columns df) = Some j ->
  supported criterion ->
  (forall level, In level (levels df j) ->
     compute_impurity (partition_targets df i j level) criterion
     = compute_impurity (map (cell i) (rows df)) criterion) ->
  exists T wl,
    compute_impurity (map (cell i) (rows df)) criterion = Returns T
    /\ In [PStr "weights of partitions:"; PList wl]
          (snd (run (comp_feature_information_gain df target descriptive_feature
                       criterion)))
    /\ fst (run (comp_feature_information_gain df target descriptive_feature
                   criterion))
       = Returns (T * (1 - np_sum wl)).
Proof.
  intros Hi Hj Hc Hsame.
  destruct (call_parts df target descriptive_feature criterion i j Hi Hj Hc)
    as [T [el [wl [HT [_ [Hel [Hwl Hrun]]]]]]].
  exists T, wl. rewrite Hrun.
  split; [exact HT|]. split.
  - cbn [snd]. do 4 right. now left.
  - cbn [fst]. f_equal.
    assert (E : Forall (fun e => e = T) el).
    { clear Hrun Hwl. induction Hel as [|level e ls el [He _] _ IH];
        constructor.
      - rewrite (Hsame level (or_introl eq_refl)), HT in He. now injection He.
      - apply IH. intros l Hl. apply Hsame. now right. }
    rewrite (np_mul_same_l T el wl E).
    + lra.
    + rewrite <- (Forall2_length Hel). apply (Forall2_length Hwl).
Qed.

Lemma gini_6_6 : round (spec_gini [6 / 12; 6 / 12]) 3 = 500 / 1000.
Proof. apply round3_near. unfold spec_gini. simpl. lra. Qed.

Lemma independent_df_partitions (level : value) :
  In level (levels independent_df 0) ->
  compute_impurity (partition_targets independent_df 1 0 level) "gini"
  = compute_impurity (map (cell 1) (rows independent_df)) "gini".
Proof.
  intros H. rewrite !(compute_impurity_spec _ "gini") by now right.
  f_equal.
  assert (T : round (spec_impurity (map (cell 1) (rows independent_df)) "gini") 3
              = 500 / 1000).
  { crunch_data. cbn [map cell nth]. distribution. apply gini_6_6. }
  rewrite T. vm_compute in H.
  repeat (destruct H as [<-|H]; [distribution; apply gini_1_1|]).
  contradiction.
Qed.

Lemma uninformative_split_gain_witness :
  index_of "label" (columns independent_df) = Some 1%nat
  /\ index_of "feature" (columns independent_df) = Some 0%nat
  /\ supported "gini"
  /\ (forall level, In level (levels independent_df 0) ->
        compute_impurity (partition_targets independent_df 1 0 level) "gini"
        = compute_impurity (map (cell 1) (rows independent_df)) "gini")
  /\ exists T wl,
       compute_impurity (map (cell 1) (rows independent_df)) "gini" = Returns T
       /\ In [PStr "weights of partitions:"; PList wl]
             (snd (run (comp_feature_information_gain independent_df "label"
                          "feature" "gini")))
       /\ fst (run (comp_feature_information_gain independent_df "label" "feature"
                      "gini"))
          = Returns (T * (1 - np_sum wl)).
Proof.
  assert (Hi : index_of "label" (columns independent_df) = Some 1%nat)
    by reflexivity.
  assert (Hj : index_of "feature" (columns independent_df) = Some 0%nat)
    by reflexivity.
  assert (Hc : supported "gini") by (now right).
  split; [exact Hi|]. split; [exact Hj|]. split; [exact Hc|].
  split; [exact independent_df_partitions|].
  exact (uninformative_split_gain independent_df "label" "feature" "gini" 1 0
           Hi Hj Hc independent_df_partitions).
Defined.

Lemma weight_2_12 : round (2 / 12) 3 = 167 / 1000.
Proof. apply round3_near. lra. Qed.

(** On [independent_df] the six rounded weights add up to 1.002 and the
    call returns 0.5 - 0.501 = -0.001. *)
Example independent_df_gain :
  fst (run (comp_feature_information_gain independent_df "label" "feature" "gini"))
  = Returns (- (1 / 1000)).
Proof.
  unfold run.
  rewrite (call_run independent_df "label" "feature" "gini" 1 0
             eq_refl eq_refl (or_intror eq_refl)).
  simpl fst. f_equal.
  unfold information_gain, remaining_impurity, target_impurity,
    partition_impurities, partition_weights, spec_weight.
  crunch_data. cbn [map cell nth]. distribution.
  rewrite ?gini_6_6, ?gini_1_1, ?weight_2_12.
  unfold np_mul. simpl. lra.
Qed.

(** ** The loop over the descriptive features *)

Lemma remove_at_filter (c : string) (cols : list string) (i : nat) :
  NoDup cols ->
  index_of c cols = Some i ->
  remove_at i cols = filter (fun x => negb (String.eqb x c)) cols.
Proof.
  intros N. revert i. induction N as [|c' cols Hc' N IH]; intros i H;
    [discriminate|].
  cbn [index_of] in H. cbn [filter]. rewrite (String.eqb_sym c' c).
  destruct (String.eqb_spec c c') as [<-|Hne].
  - injection H as <-. cbn [negb remove_at]. symmetry. apply filter_all.
    intros x Hx. apply negb_true_iff, String.eqb_neq. intros ->. contradiction.
  - destruct (index_of c cols) as [k|]; [|discriminate].
    injection H as <-. cbn [negb remove_at]. f_equal. now apply IH.
Qed.

Lemma position_index (df : DataFrame) (c : string) :
  In c (columns df) -> index_of c (columns df) = Some (position df c).
Proof.
  intros H. destruct (index_of_In _ _ H) as [i Hi].
  unfold position. now rewrite Hi.
Qed.

Lemma last_cons {A} (a d : A) (l : list A) : last (a :: l) d = last l a.
Proof.
  revert a d. induction l as [|b l IH]; intros a d; [reflexivity|].
  change (last (a :: b :: l) d) with (last (b :: l) d).
  now rewrite (IH b d), (IH b a).
Qed.

Section Loop.

Variables (df : DataFrame) (target criterion : string) (i : nat).
Hypothesis Htarget : index_of target (columns df) = Some i.

Let body (feature : string) (_ : option R) : M (option R) :=
  (feature_info_gain <-
     comp_feature_information_gain df target feature criterion ;;
   ret (Some feature_info_gain))%py.

(** The loop over any columns of the frame: one call after the other,
    each appending its eight lines; the last gain is kept. *)
Lemma feature_loop_run (fs : list string) (acc : option R) (out : list line) :
  supported criterion ->
  (forall f, In f fs -> In f (columns df)) ->
  for_each fs body acc out
  = (Returns (last (map (fun f => Some (information_gain df i (position df f)
                                          criterion)) fs) acc),
     out ++ flat_map (fun f => gain_log df target f criterion i (position df f))
                     fs).
Proof.
  intros Hc. revert acc out.
  induction fs as [|f fs IH]; intros acc out Hin.
  - cbn [for_each map last flat_map]. unfold ret. now rewrite app_nil_r.
  - cbn [for_each map flat_map]. unfold bind at 1. unfold body at 1.
    unfold bind at 1.
    rewrite (call_run df target f criterion i (position df f) Htarget
               (position_index df f (Hin f (or_introl eq_refl))) Hc).
    unfold ret at 1.
    rewrite IH by (intros g Hg; apply Hin; now right).
    now rewrite last_cons, <- app_assoc.
Qed.

(** The same, told by the single calls: the loop's output is the output
    of each call in turn and its value the value of the last call. *)
Lemma feature_loop_calls (fs : list string) (acc : option R) (out : list line) :
  supported criterion ->
  (forall f, In f fs -> In f (columns df)) ->
  for_each fs body acc out
  = (Returns (last (map (fun f =>
                           returned (fst (run (comp_feature_information_gain
                                                 df target f criterion)))) fs)
                   acc),
     out ++ flat_map (fun f =>
                        snd (run (comp_feature_information_gain df target f
                                    criterion))) fs).
Proof.
  intros Hc Hin. rewrite (feature_loop_run fs acc out Hc Hin).
  assert (E : forall f, In f fs ->
            run (comp_feature_information_gain df target f criterion)
            = (Returns (information_gain df i (position df f) criterion),
               gain_log df target f criterion i (position df f))).
  { intros f Hf. unfold run.
    now rewrite (call_run df target f criterion i (position df f) Htarget
                   (position_index df f (Hin f Hf)) Hc). }
  f_equal.
  - f_equal. f_equal. apply map_ext_in. intros f Hf. now rewrite (E f Hf).
  - f_equal. clear Hin. induction fs as [|f fs IH]; [reflexivity|].
    cbn [flat_map]. rewrite (E f (or_introl eq_refl)). cbn [snd]. f_equal.
    apply IH. intros g Hg. apply E. now right.
Qed.

(** The loop stops at the first call that raises. *)
Lemma feature_loop_stops (f : string) (fs : list string) (acc : option R)
  (out : list line) :
  criterion <> "entropy"%string ->
  criterion <> "gini"%string ->
  for_each (f :: fs) body acc out
  = (Raises (ValueError "Unknown impurity criterion"),
     out ++ header target f criterion).
Proof.
  intros He Hg. cbn [for_each]. unfold bind at 1. unfold body at 1.
  unfold bind at 1.
  pose proof (call_cases df target f criterion out) as C. cbv zeta in C.
  rewrite Htarget in C.
  destruct C as [[_ [_ C]]|[[Hc|Hc] _]]; [|congruence|congruence].
  now rewrite C.
Qed.

End Loop.

(** X18. With distinct column names, the target among them and a supported
    criterion, the loop over [df.drop(columns=target).columns] raises
    nothing: it calls [comp_feature_information_gain] once for every other
    column, in column order and never for the target; every one of these
    calls returns, the loop's output is the output of each call one after
    the other (eight lines each), and [feature_info_gain] ends as what the
    last call returned. *)
Theorem loop_over_features (df : DataFrame) (target criterion : string) :
  NoDup (columns df) ->
  In target (columns df) ->
  supported criterion ->
  let features := descriptive_features df target in
  let call := fun feature =>
    run (comp_feature_information_gain df target feature criterion) in
  run (gain_of_each_feature df target criterion)
  = (Returns (last (map (fun f => returned (fst (call f))) features) None),
     flat_map (fun f => snd (call f)) features)
  /\ (forall f, In f features ->
        exists gain, fst (call f) = Returns gain
                     /\ List.length (snd (call f)) = 8%nat)
  /\ ~ In target features
  /\ List.length (snd (run (gain_of_each_feature df target criterion)))
     = (8 * List.length features)%nat.
Proof.
  intros N Ht Hc features call.
  pose proof (position_index df target Ht) as Hi.
  assert (F : forall f, In f features -> In f (columns df)).
  { intros f Hf. unfold features, descriptive_features in Hf.
    now apply filter_In in Hf. }
  assert (C : forall f, In f features ->
            call f = (Returns (information_gain df (position df target)
                                 (position df f) criterion),
                      gain_log df target f criterion (position df target)
                        (position df f))).
  { intros f Hf. unfold call, run.
    now rewrite (call_run df target f criterion _ (position df f) Hi
                   (position_index df f (F f Hf)) Hc). }
  assert (E : run (gain_of_each_feature df target criterion)
              = (Returns (last (map (fun f => returned (fst (call f))) features)
                               None),
                 flat_map (fun f => snd (call f)) features)).
  { unfold run, gain_of_each_feature, drop. unfold bind at 1. unfold lift.
    rewrite Hi. cbn [columns].
    rewrite (remove_at_filter target (columns df) _ N Hi).
    fold (descriptive_features df target). fold features.
    now rewrite (feature_loop_calls df target criterion _ Hi features None []
                   Hc F). }
  split; [exact E|]. split; [|split].
  - intros f Hf. rewrite (C f Hf). eexists. split; reflexivity.
  - unfold features, descriptive_features. rewrite filter_In.
    intros [_ H]. now rewrite String.eqb_refl in H.
  - rewrite E. cbn [snd].
    assert (L : forall l, (forall f, In f l -> In f features) ->
              List.length (flat_map (fun f => snd (call f)) l)
              = (8 * List.length l)%nat).
    { induction l as [|f l IH]; intros Hl; [reflexivity|].
      cbn [flat_map List.length]. rewrite length_app.
      rewrite (C f (Hl f (or_introl eq_refl))). cbn [snd].
      rewrite IH by (intros g Hg; apply Hl; now right).
      unfold gain_log. simpl List.length. lia. }
    apply L. auto.
Qed.

Lemma vegetation_columns_distinct : NoDup (columns vegetation_df).
Proof.
  simpl. repeat constructor; simpl; intros H;
    repeat (destruct H as [H|H]; [discriminate|]); contradiction.
Qed.

Lemma loop_over_features_witness :
  NoDup (columns vegetation_df)
  /\ In "vegetation"%string (columns vegetation_df)
  /\ supported "entropy"
  /\ (let features := descriptive_features vegetation_df "vegetation" in
      let call := fun feature =>
        run (comp_feature_information_gain vegetation_df "vegetation" feature
               "entropy") in
      run (gain_of_each_feature vegetation_df "vegetation" "entropy")
      = (Returns (last (map (fun f => returned (fst (call f))) features) None),
         flat_map (fun f => snd (call f)) features)
      /\ (forall f, In f features ->
            exists gain, fst (call f) = Returns gain
                         /\ List.length (snd (call f)) = 8%nat)
      /\ ~ In "vegetation"%string features
      /\ List.length (snd (run (gain_of_each_feature vegetation_df "vegetation"
                                  "entropy")))
         = (8 * List.length features)%nat).
Proof.
  assert (Ht : In "vegetation"%string (columns vegetation_df)) by (simpl; tauto).
  assert (Hc : supported "entropy") by (now left).
  split; [exact vegetation_columns_distinct|]. split; [exact Ht|].
  split; [exact Hc|].
  exact (loop_over_features vegetation_df "vegetation" "entropy"
           vegetation_columns_distinct Ht Hc).
Defined.

(** The features of the vegetation frame, in the order of the notebook's
    output: stream, slope, elevation. *)
Example vegetation_features :
  descriptive_features vegetation_df "vegetation"
  = ["stream"; "slope"; "elevation"]%string.
Proof. reflexivity. Qed.

(** X19. With distinct column names and the target among them, a criterion
    other than 'entropy' and 'gini' stops the loop in its first turn: the
    [ValueError] of [compute_impurity] leaves the loop after the three
    header lines of the first descriptive column, and no other column is
    tried. *)
Theorem loop_stops_at_first_error
  (df : DataFrame) (target criterion first : string) (others : list string) :
  NoDup (columns df) ->
  In target (columns df) ->
  criterion <> "entropy"%string ->
  criterion <> "gini"%string ->
  descriptive_features df target = first :: others ->
  run (gain_of_each_feature df target criterion)
  = (Raises (ValueError "Unknown impurity criterion"),
     header target first criterion).
Proof.
  intros N Ht He Hg Hf.
  pose proof (position_index df target Ht) as Hi.
  unfold run, gain_of_each_feature, drop. unfold bind at 1. unfold lift.
  rewrite Hi. cbn [columns].
  rewrite (remove_at_filter target (columns df) _ N Hi).
  fold (descriptive_features df target). rewrite Hf.
  now rewrite (feature_loop_stops df target criterion _ Hi first others None []
                 He Hg).
Qed.

Lemma loop_stops_at_first_error_witness :
  NoDup (columns vegetation_df)
  /\ In "vegetation"%string (columns vegetation_df)
  /\ "foo"%string <> "entropy"%string
  /\ "foo"%string <> "gini"%string
  /\ descriptive_features vegetation_df "vegetation"
     = "stream"%string :: ["slope"; "elevation"]%string
  /\ run (gain_of_each_feature vegetation_df "vegetation" "foo")
     = (Raises (ValueError "Unknown impurity criterion"),
        header "vegetation" "stream" "foo").
Proof.
  assert (Ht : In "vegetation"%string (columns vegetation_df)) by (simpl; tauto).
  assert (He : "foo"%string <> "entropy"%string) by discriminate.
  assert (Hg : "foo"%string <> "gini"%string) by discriminate.
  assert (Hf : descriptive_features vegetation_df "vegetation"
               = "stream"%string :: ["slope"; "elevation"]%string) by reflexivity.
  split; [exact vegetation_columns_distinct|]. split; [exact Ht|].
  split; [exact He|]. split; [exact Hg|]. split; [exact Hf|].
  exact (loop_stops_at_first_error vegetation_df "vegetation" "foo" "stream"
           ["slope"; "elevation"]%string vegetation_columns_distinct Ht He Hg Hf).
Defined.
